(** * The REST action of the gateway: [src/lib/components/rest.ts]

    A shallow embedding of [createRestAction] and of the [action] closure it
    returns, with the properties of the dispatch pipeline stated over it.

    Conventions of the embedding.
    - JavaScript values are the inductive [value]; an object is a finite map
      from its own property names to values (a key may be present and hold
      [VUndef], which [Object.assign] and spread copy like any other value).
    - A property read under a name that comes from the configuration (the
      pass-through names of line 175, the endpoint key of line 122) sees the
      members of [Object.prototype] where the object has no own property of
      that name: [read] and [table_get]. Reads under a literal name, or under
      a header name fixed by [../constants], none of which [Object.prototype]
      has, are look-ups among the own properties: [get].
    - The tracing context, the stats sink, the transport and the hooks are
      collaborators: what the action does to them is recorded, in program
      order, as a list of [event]s.
    - A collaborator is fallible exactly where the source guards its call:
      the transport call (outer [try]), the parameter producer, the body
      preview, the two transform hooks, the fallback parser and the
      response-size computation return a [completion]. The tracing context,
      the stats sink and the two helpers that clean headers for them are
      called both inside and outside a [try]: each of their calls inside one
      (lines 305, 311-330 and 354, the type [guarded]) has a completion of
      its own, [throws_at], and an event is recorded for a call that was
      made, whether it returned or threw. Their calls outside a [try], and
      the validator, the endpoint selector, the proxy-header functions and
      the auth provider, which are only called unguarded, are modelled as
      returning.
    - Modules of the repository that are imported by [rest.ts] but are not
      part of the sources at hand ([../constants], [../utils/*]) are fields
      of the record [Collab], or are modelled from the specification where
      said so. *)

From stdpp Require Import gmap strings list fin_maps.
From Stdlib Require Import ZArith.

Set Warnings "-register-all".
#[local] Open Scope Z_scope.
#[local] Open Scope string_scope.
#[local] Open Scope list_scope.

(** ** JavaScript values *)

(** [VInherited k] is the member of [Object.prototype] under the name [k]: a
    native function, or, under [__proto__], the prototype object itself. It
    is truthy, it is not [undefined], and it has none of the properties that
    the code reads by a literal name. *)
Inductive value :=
| VUndef
| VNull
| VNaN
| VBool (b : bool)
| VNum (n : Z)
| VStr (s : string)
| VObj (o : gmap string value)
| VInherited (name : string).

Abbreviation obj := (gmap string value).

(** [Boolean(v)]. *)
Definition truthy (v : value) : bool :=
  match v with
  | VUndef | VNull | VNaN => false
  | VBool b => b
  | VNum n => negb (Z.eqb n 0)
  | VStr s => negb (String.eqb s EmptyString)
  | VObj _ => true
  | VInherited _ => true
  end.

Definition is_undef (v : value) : bool :=
  match v with VUndef => true | _ => false end.

(** [a || b] *)
Definition js_or (a b : value) : value := if truthy a then a else b.

(** [a ?? b] *)
Definition coalesce (a b : value) : value :=
  match a with VUndef | VNull => b | _ => a end.

(** [o[k]] among the own properties of an object: an absent key reads as
    [undefined]. *)
Definition get (o : obj) (k : string) : value := default VUndef (o !! k).

(** The names of the members of [Object.prototype], which every object
    literal and every plain object inherits. *)
Definition Object_prototype : list string :=
  ["constructor"; "__defineGetter__"; "__defineSetter__"; "hasOwnProperty";
   "__lookupGetter__"; "__lookupSetter__"; "isPrototypeOf";
   "propertyIsEnumerable"; "toString"; "valueOf"; "__proto__";
   "toLocaleString"].

Definition inherited (k : string) : bool := bool_decide (k ∈ Object_prototype).

(** [o[k]] on a plain object, for any name [k]: the own property when there
    is one (also when it holds [undefined]), else the member of
    [Object.prototype] of that name, [VInherited k], else [undefined]. *)
Definition read (o : obj) (k : string) : value :=
  match o !! k with
  | Some v => v
  | None => if inherited k then VInherited k else VUndef
  end.

(** [v?.[k]] / [_.get(v, k)] on an arbitrary value. *)
Definition get_path (v : value) (k : string) : value :=
  match v with VObj o => get o k | _ => VUndef end.

(** [_.get(v, k, d)]: the default replaces an [undefined] result only. *)
Definition lodash_get (v : value) (k : string) (d : value) : value :=
  match get_path v k with VUndef => d | x => x end.

(** [Object.assign(target, src)], and [{...target, ...src}]. *)
Definition assign (target src : obj) : obj := src ∪ target.

(** [_.omitBy(o, _.isUndefined)] *)
Definition omit_undefined (o : obj) : obj :=
  filter (λ kv, is_undef kv.2 = false) o.

(** [k in v], for [v] that passed [v && v instanceof Object]. *)
Definition has_key (v : value) (k : string) : bool :=
  match v with VObj o => bool_decide (is_Some (o !! k)) | _ => false end.

(** What a guarded call yields: a value, or a thrown value. *)
Inductive completion (A : Type) :=
| Returns (a : A)
| Throws (e : value).
Arguments Returns {A} a.
Arguments Throws {A} e.

(** ** Data model *)

(** Modelled from the spec: the endpoint types of [../models/common] and the
    guards [isExtendedActionEndpoint] and [isExtendedRestActionEndpoint] of
    [../utils/common] are not among the sources. An entry of the endpoint
    table is a plain base URL, or an extended descriptor carrying a base URL
    and, possibly, per-endpoint transport overrides; the guards are the
    pattern matching on the two forms. What a look-up in the table comes
    back with can also be no entry at all but a member the table inherits
    from [Object.prototype] ([InheritedMember], see [table_get]); both guards
    answer no for it. *)
Inductive endpointData :=
| PlainEndpoint (url : string)
| ExtendedEndpoint (path : string) (axiosConfig : option obj)
| InheritedMember (name : string).

Abbreviation EndpointsConfig := (gmap string endpointData).

(** [Boolean(endpointData)] for a resolved entry. *)
Definition endpoint_truthy (e : option endpointData) : bool :=
  match e with
  | None => false
  | Some (PlainEndpoint u) => negb (String.eqb u EmptyString)
  | Some (ExtendedEndpoint _ _) => true
  | Some (InheritedMember _) => true
  end.

Inductive endpointSelector :=
| EndpointFn (f : option EndpointsConfig → value → option endpointData)
| EndpointKey (k : string)
| EndpointUnset.

Inductive pathSpec :=
| PathStatic (p : string)
| PathFn (f : value → string).

Inductive proxyHeadersSpec :=
| ProxyFn (f : obj → string → obj)
| ProxyList (names : list string)
| ProxyUnset.

Record GetAuthHeadersParams := {
  actionType : string;
  auth_serviceName : string;
  auth_requestHeaders : obj;
  auth_authArgs : value;
}.

(** What the auth provider hands back to the (un-awaited) call: a headers
    object, nothing, or a promise of a headers object. *)
Inductive authReturn :=
| AuthObject (h : obj)
| AuthUndefined
| AuthPromise (h : obj).

Record ParamsOutput := {
  po_body : value;
  po_query : value;
  po_headers : option obj;
}.

Inductive serializerSpec :=
| SerializerFn (f : value → string)
| SerializerObject (serialize : option (value → string))
| SerializerUnset.

(** The action configuration. The hooks are functions of the configuration;
    the awaited ones ([params], [transformResponseData],
    [transformResponseError]) yield a [completion], a rejected promise being
    a throw at the [await]. The error hook, like the fallback parser, yields
    an error object or nothing. *)
Record ApiServiceRestActionConfig := {
  cfg_method : string;
  cfg_path : pathSpec;
  cfg_endpoint : endpointSelector;
  cfg_validationSchema : value;
  cfg_timeout : value;
  cfg_retries : value;
  cfg_idempotency : bool;
  cfg_proxyHeaders : proxyHeadersSpec;
  cfg_getAuthHeaders : option (GetAuthHeadersParams → authReturn);
  cfg_params : option (value → obj → completion (option ParamsOutput));
  cfg_transformResponseData :
    option (value → value → value → completion value);
  cfg_transformResponseError :
    option (value → value → completion (option obj));
  cfg_paramsSerializer : serializerSpec;
  cfg_maxRedirects : value;
}.

Record GatewayApiOptions := {
  opt_serviceName : option string;
  opt_timeout : value;
  opt_axiosConfig : option obj;
  opt_validationSchema : value;
  opt_proxyHeaders : proxyHeadersSpec;
  opt_getAuthHeaders : GetAuthHeadersParams → authReturn;
  opt_encodePathArgs : value;
  opt_sendStats : bool;
}.

Record ApiActionConfig := {
  ac_args : value;
  ac_requestId : value;
  ac_headers : obj;
  ac_authArgs : value;
  ac_timeout : value;
}.

(** *** The transport *)

(** Where a transport instance was built: once, when the action is set up,
    or inside a dispatch. It stands for the identity of the JS object. *)
Inductive site := SetupSite | CallSite.

Record axiosClient := {
  client_site : site;
  client_timeout : value;
  client_retries : value;
  client_config : option obj;
}.

(** Modelled from the spec: [getAxiosClient] of [../utils/axios] is not among
    the sources; every call builds a transport instance from a timeout, a
    retry count and a transport configuration. *)
Definition getAxiosClient (s : site) (timeout retries : value)
    (axiosConfig : option obj) : axiosClient :=
  {| client_site := s; client_timeout := timeout;
     client_retries := retries; client_config := axiosConfig |}.

Record AxiosRequestConfig := {
  rc_url : string;
  rc_method : string;
  rc_data : value;
  rc_params : value;
  rc_headers : obj;
  rc_maxRedirects : value;
  rc_paramsSerializer : serializerSpec;
}.

Record response := {
  resp_data : value;
  resp_headers : value;
  resp_status : value;
}.

(** *** Collaborators that are not part of the sources at hand *)

(** The calls of the tracing context, of the stats sink and of the helpers
    that build their arguments which the source makes inside a [try]: a
    throw of theirs is caught, by the [catch] of line 306 or 355 for the two
    logs that follow a transform hook, by the [catch] of line 333 for the
    others. *)
Inductive guarded :=
| GLogTransformed        (* ctx.log, line 305 *)
| GRedact                (* redactSensitiveHeaders, line 318 *)
| GSanitizeStats         (* sanitizeDebugHeaders, line 320 *)
| GSendStats             (* options.sendStats, line 312 *)
| GCtxStats              (* ctx.stats, line 323 *)
| GSanitizeLog           (* sanitizeDebugHeaders, line 329 *)
| GLogCompleted          (* ctx.log, line 329 *)
| GEnd                   (* ctx.end, line 330 *)
| GLogTransformedError.  (* ctx.log, line 354 *)

#[export] Instance guarded_eq_dec : EqDecision guarded.
Proof. solve_decision. Defined.

Record Collab := {
  (* ../constants *)
  DEFAULT_LANG_HEADER : string;
  DEFAULT_PROXY_HEADERS : list string;
  ECMA_STRING_SIZE : Z;
  Lang_Ru : string;
  VERSION : string;
  (* ../utils *)
  validateArgs : value → value → value;
  encodePathParams : value → value;
  getPathArgsProxy : value → value → value;
  sanitizeDebugHeaders : obj → obj;
  redactSensitiveHeaders : obj → obj;
  parseRestError : value → value → completion (option obj);
  (* platform; [member_text k] is [String(m)] for the member [m] of
     [Object.prototype] under the name [k] *)
  member_text : string → string;
  url_parse_host : string → value;
  querystring_stringify : value → string;
  JSON_stringify : value → completion (option string);
  encodeBody : value → completion string;
  uuidv4 : string;
  (* the clock: at line 247; at line 294 or, when the transport call threw,
     at line 336; at line 336 when line 294 had read it before *)
  now_start : Z;
  now_end : Z;
  now_caught : Z;
  (* the tracing context and the transport *)
  getMetadata : obj;
  request : axiosClient → AxiosRequestConfig → completion response;
  (* what a call made inside a [try] throws, if it throws *)
  throws_at : guarded → option value;
}.

(** *** What the action does to its collaborators *)

Inductive callee :=
| CValidateArgs
| CEndpointSelector
| CEndpointLookup
| CServiceProxyHeaders
| CActionProxyHeaders
| CGetAuthHeaders
| CParams
| CGetAxiosClient
| CTransformResponseData
| CTransformResponseError
| CParseRestError.

Inductive event :=
| EvCreate (name : string) (tags : obj)
| EvLog (msg : string) (extra : value)
| EvLogError (msg : string) (err : value) (extra : value)
| EvHandleError (err : value) (msg : string)
| EvCall (c : callee)
| EvRequest (client : axiosClient) (cfg : AxiosRequestConfig)
| EvCtxStats (record : obj)
| EvSendStats (record : obj) (headers : obj) (extra : obj)
| EvEnd.

(** The resolved value of a dispatch. *)
Record resolved := {
  responseData : value;
  debugHeaders : obj;
}.

(** How an [async] body finishes: it returns, or it returns
    [Promise.reject(v)]. *)
Inductive settled (A : Type) :=
| Resolve (a : A)
| Reject (v : obj).
Arguments Resolve {A} a.
Arguments Reject {A} v.

(** A computation: the events it caused, and how it finished. *)
Definition M (A : Type) : Type := list event * settled A.

#[export] Instance M_ret : MRet M := λ A a, ([], Resolve a).
#[export] Instance M_bind : MBind M := λ A B f m,
  match m with
  | (t, Resolve a) => let '(t', r) := f a in (t ++ t', r)
  | (t, Reject v) => (t, Reject v)
  end.

Definition emit (e : event) : M unit := ([e], Resolve tt).
Definition reject {A} (v : obj) : M A := ([], Reject v).

Definition trace {A} (m : M A) : list event := m.1.
Definition outcome {A} (m : M A) : settled A := m.2.

(** An object literal [{k1: v1, ..., kn: vn}] with distinct keys. *)
Definition object (l : list (string * value)) : obj := list_to_map l.

Definition is_object (v : value) : bool :=
  match v with VObj _ => true | _ => false end.

Definition dquote : string := String (Ascii.ascii_of_nat 34) EmptyString.

(** [options?.serviceName || serviceKey] *)
Definition str_or (o : option string) (d : string) : string :=
  match o with
  | Some s => if String.eqb s EmptyString then d else s
  | None => d
  end.

(** [endpoints?.[k]] / [_.get(endpoints, [k])]: nothing when there is no
    table; else the entry under [k] when the table has one; else, the table
    being a plain object and lodash reading [object[key]], the member of
    [Object.prototype] of that name when there is one. *)
Definition table_get (t : option EndpointsConfig) (k : string)
  : option endpointData :=
  match t with
  | Some m =>
      match m !! k with
      | Some e => Some e
      | None => if inherited k then Some (InheritedMember k) else None
      end
  | None => None
  end.

(** ** The code of [rest.ts] *)

(** Modelled from the spec: [handleError] of [../utils/common] is not among
    the sources; a failure of an optional step is caught, logged as a
    recoverable internal error, and processing continues. *)
Definition handleError (err : value) (msg : string) : M unit :=
  emit (EvHandleError err msg).

(** [getRestResponseSize], lines 39-52. *)
Definition getRestResponseSize (E : Collab) (data : value) : M value :=
  match JSON_stringify E data with
  | Returns (Some s) =>
      mret (VNum (ECMA_STRING_SIZE E * Z.of_nat (String.length s)))
  | Returns None => mret VNaN
  | Throws e => handleError e "Calculate response size failed";; mret (VNum 0)
  end.

(** [getConfigSerializerFunction], lines 54-62. *)
Definition getConfigSerializerFunction (config : ApiServiceRestActionConfig)
  : option (value → string) :=
  match cfg_paramsSerializer config with
  | SerializerFn f => Some f
  | SerializerObject s => s
  | SerializerUnset => None
  end.

Section Action.
Context (E : Collab).
Context (endpoints : option EndpointsConfig)
        (config : ApiServiceRestActionConfig)
        (serviceKey actionName : string)
        (options : GatewayApiOptions).

(** Lines 72-73: computed once, when the action is created. *)
Definition base_timeout : value :=
  coalesce (cfg_timeout config) (opt_timeout options).

Definition defaultAxiosClient : axiosClient :=
  getAxiosClient SetupSite base_timeout (cfg_retries config)
    (opt_axiosConfig options).

Definition serviceName : string := str_or (opt_serviceName options) serviceKey.

(** Line 81. *)
Definition lang_of (requestHeaders : obj) : value :=
  js_or (get requestHeaders (DEFAULT_LANG_HEADER E)) (VStr (Lang_Ru E)).

(** Line 94. *)
Definition validationSchema : value :=
  js_or (cfg_validationSchema config) (opt_validationSchema options).

(** Lines 102-113: the value the dispatch rejects with when validation
    fails. *)
Definition invalidParamsRejection (invalidParams : value) (debugHeaders : obj)
  : obj :=
  object [
    ("error", VObj (object [
       ("status", VNum 400);
       ("message", VStr "Validation failed");
       ("code", VStr "INVALID_PARAMS");
       ("details", VObj (object [
          ("title", VStr "Invalid params");
          ("description", invalidParams)]))]));
    ("debugHeaders", VObj debugHeaders)].

(** Lines 94-115. *)
Definition validation (args : value) (debugHeaders : obj) : M unit :=
  if truthy validationSchema then
    emit (EvCall CValidateArgs);;
    let invalidParams := validateArgs E args validationSchema in
    if truthy invalidParams then
      emit (EvLog "Invalid params"
              (VObj (object [("invalidParams", invalidParams)])));;
      emit EvEnd;;
      reject (invalidParamsRejection invalidParams debugHeaders)
    else mret tt
  else mret tt.

(** Lines 117-123. *)
Definition selectEndpoint (args : value) : M (option endpointData) :=
  match cfg_endpoint config with
  | EndpointFn f => emit (EvCall CEndpointSelector);; mret (f endpoints args)
  | EndpointKey k =>
      if String.eqb k EmptyString then mret (table_get endpoints "endpoint")
      else emit (EvCall CEndpointLookup);; mret (table_get endpoints k)
  | EndpointUnset => mret (table_get endpoints "endpoint")
  end.

Definition endpointErrorText : string :=
  "Gateway config error. Endpoint has been not found in service "
    +:+ dquote +:+ serviceKey +:+ dquote.

(** Lines 130-136: the value the dispatch rejects with when no endpoint is
    found. *)
Definition endpointNotFoundRejection : obj :=
  object [
    ("error", VObj (object [
       ("status", VNum 400);
       ("code", VStr "ENDPOINT_NOT_FOUND");
       ("message", VStr endpointErrorText)]))].

(** Lines 126-136: the exit taken when [!endpointData]. *)
Definition endpointNotFound {A} : M A :=
  emit (EvLog endpointErrorText
          (VObj (object [("serviceName", VStr serviceName);
                         ("actionName", VStr actionName)])));;
  emit EvEnd;;
  reject endpointNotFoundRejection.

(** Lines 117-137. *)
Definition resolveEndpoint (args : value) : M endpointData :=
  endpointData ← selectEndpoint args;
  match endpointData with
  | Some e => if endpoint_truthy endpointData then mret e else endpointNotFound
  | None => endpointNotFound
  end.

(** Lines 139-144. The result is only used as the left operand of the [+]
    of line 150, which turns an inherited member into its text. *)
Definition actionEndpoint (e : endpointData) : string :=
  match e with
  | ExtendedEndpoint path _ => path
  | PlainEndpoint url => url
  | InheritedMember k => member_text E k
  end.

Definition endpointAxiosConfig (e : endpointData) : obj :=
  match e with
  | ExtendedEndpoint _ axiosConfig => default ∅ axiosConfig
  | PlainEndpoint _ | InheritedMember _ => ∅
  end.

(** Lines 146-150. *)
Definition actionURL (e : endpointData) (args : value) : string :=
  let pathArgs :=
    if truthy (cfg_validationSchema config) then encodePathParams E args
    else getPathArgsProxy E args (opt_encodePathArgs options) in
  let actionPath :=
    match cfg_path config with
    | PathFn f => f pathArgs
    | PathStatic p => p
    end in
  actionEndpoint e +:+ actionPath.

(** Lines 154-161: the seed headers. *)
Definition seedHeaders (url : string) (lang : value) : obj :=
  object [
    ("host", coalesce (url_parse_host E url) VUndef);
    ("accept", VStr "application/json, */*");
    ("accept-encoding", VStr "gzip, deflate");
    ("accept-language", lang);
    ("x-gateway-version", VStr (VERSION E))].

(** Lines 163-173, for one of the two levels: a function is merged in at
    once, a list is appended to the names to copy later. *)
Definition injectProxyHeaders (c : callee) (spec : proxyHeadersSpec)
    (requestHeaders : obj) (st : obj * list string) : M (obj * list string) :=
  match spec with
  | ProxyFn f =>
      emit (EvCall c);;
      mret (assign st.1 (f requestHeaders "rest"), st.2)
  | ProxyList names => mret (st.1, st.2 ++ names)
  | ProxyUnset => mret st
  end.

(** Lines 175-179. Both reads are by a name of the pass-through list, on an
    object literal and on the inbound headers object. *)
Definition passthrough (requestHeaders : obj) (proxyHeaders : list string)
    (actionHeaders : obj) : obj :=
  fold_left
    (λ h headerName,
       if is_undef (read h headerName)
       then <[headerName := read requestHeaders headerName]> h
       else h)
    proxyHeaders actionHeaders.

(** Lines 189-195: the provider's return value is merged as it is, it is
    not awaited; a promise has no own enumerable property to copy. *)
Definition assignAuth (actionHeaders : obj) (r : authReturn) : obj :=
  match r with
  | AuthObject h => assign actionHeaders h
  | AuthUndefined => actionHeaders
  | AuthPromise _ => actionHeaders
  end.

Definition authProvider : GetAuthHeadersParams → authReturn :=
  match cfg_getAuthHeaders config with
  | Some f => f
  | None => opt_getAuthHeaders options
  end.

(** Lines 181-183. *)
Definition stampRequestId (requestId : value) (actionHeaders : obj) : obj :=
  if truthy requestId then <["x-request-id" := requestId]> actionHeaders
  else actionHeaders.

(** Lines 185-187. *)
Definition stampIdempotency (requestHeaders actionHeaders : obj) : obj :=
  if cfg_idempotency config
  then <["idempotency-key" :=
           js_or (get requestHeaders "idempotency-key") (VStr (uuidv4 E))]>
         actionHeaders
  else actionHeaders.

(** The argument of the auth provider, lines 189-194. *)
Definition authParams (ac : ApiActionConfig) : GetAuthHeadersParams :=
  {| actionType := "rest";
     auth_serviceName := serviceName;
     auth_requestHeaders := ac_headers ac;
     auth_authArgs := ac_authArgs ac |}.

(** Lines 152-197: the composed headers. *)
Definition composeHeaders (url : string) (ac : ApiActionConfig) : M obj :=
  let requestHeaders := ac_headers ac in
  let proxyHeaders := DEFAULT_PROXY_HEADERS E in
  let actionHeaders := seedHeaders url (lang_of requestHeaders) in
  st ← injectProxyHeaders CServiceProxyHeaders (opt_proxyHeaders options)
         requestHeaders (actionHeaders, proxyHeaders);
  st ← injectProxyHeaders CActionProxyHeaders (cfg_proxyHeaders config)
         requestHeaders st;
  let actionHeaders := passthrough requestHeaders st.2 st.1 in
  let actionHeaders := stampRequestId (ac_requestId ac) actionHeaders in
  let actionHeaders := stampIdempotency requestHeaders actionHeaders in
  emit (EvCall CGetAuthHeaders);;
  let authHeaders := authProvider (authParams ac) in
  let actionHeaders := assignAuth actionHeaders authHeaders in
  mret (omit_undefined actionHeaders).

(** Lines 199-207. *)
Definition produceParams (args : value) (actionHeaders : obj)
  : M (option ParamsOutput) :=
  match cfg_params config with
  | Some f =>
      emit (EvCall CParams);;
      match f args actionHeaders with
      | Returns p => mret p
      | Throws e => handleError e "Getting config params failed";; mret None
      end
  | None => mret None
  end.

(** Line 209: [const {body, query, headers = actionHeaders} = params ?? {}]. *)
Definition body_of (p : option ParamsOutput) : value :=
  match p with Some o => po_body o | None => VUndef end.
Definition query_of (p : option ParamsOutput) : value :=
  match p with Some o => po_query o | None => VUndef end.
Definition headers_of (p : option ParamsOutput) (actionHeaders : obj) : obj :=
  match p with
  | Some o => default actionHeaders (po_headers o)
  | None => actionHeaders
  end.

(** Lines 212-215. *)
Definition requestUrl (url : string) (query : value) : string :=
  let preparedQuery :=
    match getConfigSerializerFunction config with
    | Some serializer =>
        if truthy query then serializer query
        else querystring_stringify E query
    | None => querystring_stringify E query
    end in
  url +:+ (if truthy query then "?" +:+ preparedQuery else EmptyString).

(** Lines 217-232. *)
Definition bodyPreview (body : value) : M (option string) :=
  match encodeBody E body with
  | Returns encodedRequestBody =>
      mret (if Z.ltb (Z.of_nat (String.length encodedRequestBody)) 256
            then Some encodedRequestBody else None)
  | Throws e => handleError e "Stringify request body failed";; mret None
  end.

(** Lines 234-245. *)
Definition buildDebugHeaders (url : string) (ac : ApiActionConfig)
    (query : value) (headers : obj) (requestBody : option string) : obj :=
  let debugHeaders :=
    assign ∅ (object [
      ("x-api-request-method", VStr (cfg_method config));
      ("x-api-request-url", VStr (requestUrl url query));
      ("x-api-request-body",
         match requestBody with
         | Some s => if String.eqb s EmptyString then VNull else VStr s
         | None => VNull
         end);
      ("x-api-request-lang", lang_of (ac_headers ac));
      ("x-request-id", ac_requestId ac);
      ("x-gateway-version", VStr (VERSION E))]) in
  if truthy (get headers "content-type")
  then <["x-api-content-type" := get headers "content-type"]> debugHeaders
  else debugHeaders.

(** Lines 249-263. *)
Definition selectClient (ac : ApiActionConfig) (e : endpointData)
  : M axiosClient :=
  let axiosClient := defaultAxiosClient in
  if truthy (ac_timeout ac) || truthy (VObj (endpointAxiosConfig e)) then
    let customActionTimeout :=
      coalesce (ac_timeout ac)
        (coalesce (cfg_timeout config)
           (coalesce (get (endpointAxiosConfig e) "timeout") base_timeout)) in
    let customActionAxiosConfig :=
      assign (default ∅ (opt_axiosConfig options)) (endpointAxiosConfig e) in
    emit (EvCall CGetAxiosClient);;
    mret (getAxiosClient CallSite customActionTimeout (cfg_retries config)
            (Some customActionAxiosConfig))
  else mret axiosClient.

(** Lines 267-274. *)
Definition requestData (url : string) (ac : ApiActionConfig) : obj :=
  object [
    ("timestamp", VNum (now_start E));
    ("service", VStr serviceName);
    ("action", VStr actionName);
    ("requestId", ac_requestId ac);
    ("requestMethod", VStr (cfg_method config));
    ("requestUrl", VStr url)].

(** Lines 276-289. *)
Definition requestConfig (url : string) (body query : value) (headers : obj)
  : AxiosRequestConfig :=
  {| rc_url := url;
     rc_method := cfg_method config;
     rc_data := body;
     rc_params := query;
     rc_headers := assign (getMetadata E) headers;
     rc_maxRedirects := cfg_maxRedirects config;
     rc_paramsSerializer := cfg_paramsSerializer config |}.

(** Lines 370-390: the stats emission of the [catch] block, through the
    custom sink when there is one, else on the tracing context. Nothing
    guards these calls. *)
Definition emitStats (requestData : obj) (sizeOf : value) (status : value)
    (headers debugHeaders : obj) : M unit :=
  if opt_sendStats options then
    responseSize ← getRestResponseSize E sizeOf;
    emit (EvSendStats
            (assign requestData
               (object [("responseSize", responseSize);
                        ("restStatus", status)]))
            (redactSensitiveHeaders E headers)
            (object [("debugHeaders",
                      VObj (sanitizeDebugHeaders E debugHeaders))]))
  else
    emit (EvCtxStats
            (assign requestData (object [("responseStatus", status)]))).

(** A call made inside the [try] of line 291, followed by the rest [k] of
    the body: the call throws what [throws_at] says, which ends the body, or
    it returns and the body goes on. *)
Definition guard {A} (g : guarded) (k : M (completion A)) : M (completion A) :=
  match throws_at E g with
  | Some e => mret (Throws e)
  | None => k
  end.

(** Lines 311-327: the stats emission of the [try] block, followed by the
    rest [k] of the body. The arguments of the sink are evaluated from left
    to right before it is called. *)
Definition reportSuccess {A} (requestData : obj) (data : value)
    (headers debugHeaders : obj) (k : M (completion A)) : M (completion A) :=
  if opt_sendStats options then
    responseSize ← getRestResponseSize E data;
    guard GRedact
      (guard GSanitizeStats
         (emit (EvSendStats
                  (assign requestData
                     (object [("responseSize", responseSize);
                              ("restStatus", VNum 200)]))
                  (redactSensitiveHeaders E headers)
                  (object [("debugHeaders",
                            VObj (sanitizeDebugHeaders E debugHeaders))]));;
          guard GSendStats k))
  else
    emit (EvCtxStats
            (assign requestData (object [("responseStatus", VNum 200)])));;
    guard GCtxStats k.

(** Lines 297-309. The hook's result is assigned to [response.data] before
    the log of line 305 is written: a throw of that log is caught like a
    throw of the hook, with the transformed data in place. *)
Definition transformData (args : value) (r : response) : M value :=
  match cfg_transformResponseData config with
  | Some hook =>
      emit (EvCall CTransformResponseData);;
      match hook (resp_data r) args (resp_headers r) with
      | Returns d =>
          emit (EvLog "Transformed response data" VUndef);;
          match throws_at E GLogTransformed with
          | Some e => handleError e "Transform response data failed";; mret d
          | None => mret d
          end
      | Throws e =>
          handleError e "Transform response data failed";;
          mret (resp_data r)
      end
  | None => mret (resp_data r)
  end.

(** Lines 294-332: the body of the [try] after the transport call returned
    [r]. It returns the resolved value, or it throws. *)
Definition onSuccess (ac : ApiActionConfig) (requestData headers
    debugHeaders : obj) (r : response) : M (completion resolved) :=
  let requestData :=
    <["requestTime" := VNum (now_end E - now_start E)]> requestData in
  data ← transformData (ac_args ac) r;
  reportSuccess requestData data headers debugHeaders
    (guard GSanitizeLog
       (emit (EvLog "Request completed"
                (VObj (object [("debugHeaders",
                                VObj (sanitizeDebugHeaders E debugHeaders))])));;
        guard GLogCompleted
          (emit EvEnd;;
           guard GEnd
             (mret (Returns {| responseData := data;
                               debugHeaders := debugHeaders |}))))).

(** Lines 339-358. The hook's result is assigned to [parsedError] before the
    log of line 354 is written: a throw of that log is caught like a throw of
    the hook, with the hook's result in place. *)
Definition transformError (args error : value) : M (option obj) :=
  match cfg_transformResponseError config with
  | Some hook =>
      if truthy error && is_object error && has_key error "response" then
        emit (EvCall CTransformResponseError);;
        match hook (get_path error "response") args with
        | Returns p =>
            emit (EvLog "Transformed response error" VUndef);;
            match throws_at E GLogTransformedError with
            | Some e =>
                handleError e "Transform response error failed";; mret p
            | None => mret p
            end
        | Throws e =>
            handleError e "Transform response error failed";; mret None
        end
      else mret None
  | None => mret None
  end.

(** Lines 360-366. *)
Definition fallbackParse (error lang : value) (parsedError : option obj)
  : M (option obj) :=
  match parsedError with
  | Some _ => mret parsedError
  | None =>
      emit (EvCall CParseRestError);;
      match parseRestError E error lang with
      | Returns p => mret p
      | Throws e => handleError e "Error parse rest error";; mret None
      end
  end.

(** [_.get(parsedError, 'status')] *)
Definition parsedStatus (parsedError : option obj) : value :=
  match parsedError with Some o => get o "status" | None => VUndef end.

(** Line 368. *)
Definition responseStatus (parsedError : option obj) (error : value) : value :=
  js_or (parsedStatus parsedError) (lodash_get error "status" (VNum 500)).

(** Lines 400-403: [{error: {...parsedError, requestId}, debugHeaders}]. *)
Definition failure (parsedError : option obj) (requestId : value)
    (debugHeaders : obj) : obj :=
  object [
    ("error", VObj (<["requestId" := requestId]> (default ∅ parsedError)));
    ("debugHeaders", VObj debugHeaders)].

(** Lines 333-404: the [catch] block, for the value [error] that the
    transport call, or a later call of the [try] block, threw;
    [endRequestTime] is the clock read at line 336. *)
Definition onFailure (endRequestTime : Z) (url : string)
    (ac : ApiActionConfig) (requestData headers debugHeaders : obj)
    (error : value) : M resolved :=
  let requestData :=
    <["requestTime" := VNum (endRequestTime - now_start E)]> requestData in
  parsedError ← transformError (ac_args ac) error;
  parsedError ← fallbackParse error (lang_of (ac_headers ac)) parsedError;
  let responseStatus := responseStatus parsedError error in
  emitStats requestData (get_path (get_path error "response") "data")
    responseStatus headers debugHeaders;;
  emit (EvLogError "Request failed" error
          (VObj (object [
             ("actionURL", VStr url);
             ("parsedError",
                match parsedError with Some o => VObj o | None => VUndef end);
             ("serviceName", VStr serviceName);
             ("debugHeaders",
                VObj (sanitizeDebugHeaders E debugHeaders))])));;
  emit EvEnd;;
  reject (failure parsedError (ac_requestId ac) debugHeaders).

(** Lines 291-404: the [try] around the transport call and what follows it,
    and its [catch]. *)
Definition settle (url : string) (ac : ApiActionConfig) (requestData headers
    debugHeaders : obj) (c : completion response) : M resolved :=
  match c with
  | Returns r =>
      body ← onSuccess ac requestData headers debugHeaders r;
      match body with
      | Returns result => mret result
      | Throws error =>
          onFailure (now_caught E) url ac requestData headers debugHeaders
            error
      end
  | Throws error =>
      onFailure (now_end E) url ac requestData headers debugHeaders error
  end.

(** Lines 76-405: the dispatch. *)
Definition action (actionConfig : ApiActionConfig) : M resolved :=
  let args := ac_args actionConfig in
  let debugHeaders : obj := ∅ in
  emit (EvCreate
          ("Gateway " +:+ serviceName +:+ " " +:+ actionName +:+ " [rest]")
          (object [("tags", VObj (object [
             ("action", VStr actionName);
             ("service", VStr serviceName);
             ("type", VStr "rest")]))]));;
  emit (EvLog "Initiating request" VUndef);;
  validation args debugHeaders;;
  endpointData ← resolveEndpoint args;
  let actionURL := actionURL endpointData args in
  actionHeaders ← composeHeaders actionURL actionConfig;
  params ← produceParams args actionHeaders;
  let body := body_of params in
  let query := query_of params in
  let headers := headers_of params actionHeaders in
  requestBody ← bodyPreview body;
  let debugHeaders :=
    buildDebugHeaders actionURL actionConfig query headers requestBody in
  axiosClient ← selectClient actionConfig endpointData;
  emit (EvLog "Starting request"
          (VObj (object [("debugHeaders",
                          VObj (sanitizeDebugHeaders E debugHeaders))])));;
  let requestData := requestData actionURL actionConfig in
  let requestConfig := requestConfig actionURL body query headers in
  emit (EvRequest axiosClient requestConfig);;
  settle actionURL actionConfig requestData headers debugHeaders
    (request E axiosClient requestConfig).
End Action.

(** [createRestAction], lines 64-406: the default transport instance is built
    here, once, and the closure [action] is returned. *)
Definition createRestAction (E : Collab) (endpoints : option EndpointsConfig)
    (config : ApiServiceRestActionConfig) (serviceKey actionName : string)
    (options : GatewayApiOptions) : ApiActionConfig → M resolved :=
  action E endpoints config serviceKey actionName options.

(** ** Reading a trace *)

Definition is_stats (e : event) : bool :=
  match e with EvCtxStats _ | EvSendStats _ _ _ => true | _ => false end.

Definition is_end (e : event) : bool :=
  match e with EvEnd => true | _ => false end.

Definition is_request (e : event) : bool :=
  match e with EvRequest _ _ => true | _ => false end.

(** Neither a stats emission, nor the closing of the span, nor a transport
    call. *)
Definition plain (e : event) : bool :=
  negb (is_stats e || is_end e || is_request e).

Definition count (p : event → bool) (t : list event) : nat :=
  length (filter (λ e, p e = true) t).

Definition quiet (t : list event) : Prop := Forall (λ e, plain e = true) t.

(** Whether a stats emission went through the custom sink. *)
Definition via_sink (e : event) : bool :=
  match e with EvSendStats _ _ _ => true | _ => false end.

(** The status a stats emission reports: [restStatus] to the custom sink,
    [responseStatus] on the tracing context. *)
Definition stats_status (e : event) : option value :=
  match e with
  | EvSendStats record _ _ => record !! "restStatus"
  | EvCtxStats record => record !! "responseStatus"
  | _ => None
  end.

(** The statuses the stats emissions of a trace report, in program order. *)
Definition statuses (t : list event) : list (option value) :=
  omap (λ e, if is_stats e then Some (stats_status e) else None) t.

(** The header maps handed to the transport. *)
Definition transmitted (t : list event) : list obj :=
  omap (λ e, match e with EvRequest _ cfg => Some (rc_headers cfg) | _ => None end) t.

(** The transport instances requests were issued on. *)
Definition clients_used (t : list event) : list axiosClient :=
  omap (λ e, match e with EvRequest c _ => Some c | _ => None end) t.

(** *** The dispatch as preparation followed by the transport call *)

Record prepared := {
  p_url : string;
  p_body : value;
  p_query : value;
  p_headers : obj;
  p_debugHeaders : obj;
  p_client : axiosClient;
}.

Section Phases.
Context (E : Collab).
Context (endpoints : option EndpointsConfig)
        (config : ApiServiceRestActionConfig)
        (serviceKey actionName : string)
        (options : GatewayApiOptions).

Let serviceName := serviceName serviceKey options.

(** Lines 79-265 of [action]: everything before the transport call. *)
Definition prepare (actionConfig : ApiActionConfig) : M prepared :=
  let args := ac_args actionConfig in
  emit (EvCreate
          ("Gateway " +:+ serviceName +:+ " " +:+ actionName +:+ " [rest]")
          (object [("tags", VObj (object [
             ("action", VStr actionName);
             ("service", VStr serviceName);
             ("type", VStr "rest")]))]));;
  emit (EvLog "Initiating request" VUndef);;
  validation E config options args ∅;;
  endpointData ← resolveEndpoint endpoints config serviceKey actionName options args;
  let actionURL := actionURL E config options endpointData args in
  actionHeaders ← composeHeaders E config serviceKey options actionURL actionConfig;
  params ← produceParams config args actionHeaders;
  let headers := headers_of params actionHeaders in
  requestBody ← bodyPreview E (body_of params);
  let debugHeaders :=
    buildDebugHeaders E config actionURL actionConfig (query_of params)
      headers requestBody in
  axiosClient ← selectClient config options actionConfig endpointData;
  emit (EvLog "Starting request"
          (VObj (object [("debugHeaders",
                          VObj (sanitizeDebugHeaders E debugHeaders))])));;
  mret {| p_url := actionURL; p_body := body_of params;
          p_query := query_of params; p_headers := headers;
          p_debugHeaders := debugHeaders; p_client := axiosClient |}.

Definition p_config (p : prepared) : AxiosRequestConfig :=
  requestConfig E config (p_url p) (p_body p) (p_query p) (p_headers p).

(** Lines 291-404 of [action]: the transport call's completion and what
    follows it. *)
Definition finish (actionConfig : ApiActionConfig) (p : prepared)
  : M resolved :=
  settle E config serviceKey options (p_url p) actionConfig
    (requestData E config serviceKey actionName options (p_url p) actionConfig)
    (p_headers p) (p_debugHeaders p)
    (request E (p_client p) (p_config p)).
End Phases.

(** ** Views of the dispatch used to state its properties *)

Section Views.
Context (E : Collab).
Context (endpoints : option EndpointsConfig)
        (config : ApiServiceRestActionConfig)
        (options : GatewayApiOptions).

(** Whether the validator is run and reports invalid fields (lines 95-98). *)
Definition validation_fails (args : value) : bool :=
  truthy (validationSchema config options) &&
  truthy (validateArgs E args (validationSchema config options)).

(** The entry lines 117-123 leave in [endpointData]. *)
Definition selectedEndpoint (args : value) : option endpointData :=
  match outcome (selectEndpoint endpoints config args) with
  | Resolve e => e
  | Reject _ => None
  end.

(** Lines 339-366: the error-transform hook, then the fallback parser. *)
Definition normalizeError (args error lang : value) : M (option obj) :=
  parsedError ← transformError E config args error;
  fallbackParse E error lang parsedError.

(** The calls that lines 311-330 make inside the [try], in program order. *)
Definition success_path : list guarded :=
  (if opt_sendStats options then [GRedact; GSanitizeStats; GSendStats]
   else [GCtxStats])
  ++ [GSanitizeLog; GLogCompleted; GEnd].

(** The first call of a list that throws, with what it throws. *)
Fixpoint first_throw (l : list guarded) : option (guarded * value) :=
  match l with
  | [] => None
  | g :: l =>
      match throws_at E g with
      | Some e => Some (g, e)
      | None => first_throw l
      end
  end.

(** Where the [try] block stops after the transport call has returned, if it
    does not get to its [return]. *)
Definition stops_at : option (guarded * value) := first_throw success_path.
End Views.

(** The calls of the success path that come before the stats emission: a
    throw of theirs leaves the [try] block before the sink is called. *)
Definition before_stats (g : guarded) : bool :=
  match g with GRedact | GSanitizeStats => true | _ => false end.

(** The call that closes the span. *)
Definition closes_span (g : guarded) : bool :=
  match g with GEnd => true | _ => false end.

(** A trace that ends with the closing of the span and has neither stats,
    nor a transport call, nor another closing before it. *)
Definition early (t : list event) : Prop :=
  ∃ l, t = l ++ [EvEnd] ∧ quiet l.

(** A computation that stays clear of stats and transport, and closes the
    span only to reject. *)
Definition prep {A} (m : M A) : Prop :=
  match outcome m with
  | Resolve _ => quiet (trace m)
  | Reject _ => early (trace m)
  end.

(** A computation that stays clear of stats, transport and span closing, and
    does not reject. *)
Definition calm {A} (m : M A) : Prop :=
  quiet (trace m) ∧ ∃ a, outcome m = Resolve a.

(** A trace with one stats emission, reporting [status], through the sink or
    not, and the closing of the span as its last event. *)
Definition reported (sink : bool) (status : value) (t : list event) : Prop :=
  ∃ l1 e l2, t = l1 ++ e :: l2 ++ [EvEnd] ∧ quiet l1 ∧ quiet l2 ∧
    is_stats e = true ∧ via_sink e = sink ∧ stats_status e = Some status.

(** A trace of the [try] block that the call [g] of the success path ended
    with a throw: no stats emission yet when [g] comes before it, else the
    one emission of the success path, reporting 200; the closing of the span
    is in it, as its last event, only when it is the closing that threw. *)
Definition attempted (sink : bool) (g : guarded) (t : list event) : Prop :=
  if before_stats g then quiet t
  else
    ∃ l1 e l2,
      t = l1 ++ e :: l2 ++ (if closes_span g then [EvEnd] else []) ∧
      quiet l1 ∧ quiet l2 ∧
      is_stats e = true ∧ via_sink e = sink ∧
      stats_status e = Some (VNum 200).

(** The auth provider's return value leaves header [k] as it was. *)
Definition auth_silent (r : authReturn) (k : string) : Prop :=
  match r with
  | AuthObject ah => ah !! k = None
  | AuthUndefined | AuthPromise _ => True
  end.

(** The parameter producer of the action never returns a headers override. *)
Definition no_headers_override (config : ApiServiceRestActionConfig) : Prop :=
  ∀ f args h po,
    cfg_params config = Some f → f args h = Returns (Some po) →
    po_headers po = None.

(** The headers overrides the parameter producer returns hold no
    [undefined]. *)
Definition override_defined (config : ApiServiceRestActionConfig) : Prop :=
  ∀ f args h po oh k,
    cfg_params config = Some f → f args h = Returns (Some po) →
    po_headers po = Some oh → oh !! k ≠ Some VUndef.

(** ** Sample collaborators and calls *)

Module Sample.
(** How Node prints the members of [Object.prototype]: a native function as
    its source text; [__proto__] is the prototype object itself. *)
Definition native_text (k : string) : string :=
  if String.eqb k "__proto__" then "[object Object]"
  else "function "
         +:+ (if String.eqb k "constructor" then "Object" else k)
         +:+ "() { [native code] }".

(** A validator that reports what the arguments hold under [invalid]. *)
Definition collab
    (request : axiosClient → AxiosRequestConfig → completion response)
    (parse : value → value → completion (option obj)) : Collab :=
  {| DEFAULT_LANG_HEADER := "accept-language";
     DEFAULT_PROXY_HEADERS := ["x"];
     ECMA_STRING_SIZE := 2;
     Lang_Ru := "ru";
     VERSION := "1.0.0";
     validateArgs := λ args schema, get_path args "invalid";
     encodePathParams := λ a, a;
     getPathArgsProxy := λ a _, a;
     sanitizeDebugHeaders := λ h, h;
     redactSensitiveHeaders := λ h, h;
     parseRestError := parse;
     member_text := native_text;
     url_parse_host := λ _, VStr "backend:8080";
     querystring_stringify :=
       λ q, match q with VUndef => EmptyString | _ => "q" end;
     JSON_stringify :=
       λ v, match v with
            | VUndef => Returns None
            | VStr s => Returns (Some (dquote +:+ s +:+ dquote))
            | _ => Returns (Some "{}")
            end;
     encodeBody :=
       λ v, match v with
            | VUndef => Returns "undefined"
            | VStr s => Returns s
            | _ => Returns "%7B%7D"
            end;
     uuidv4 := "00000000-0000-4000-8000-000000000000";
     now_start := 1000;
     now_end := 1042;
     now_caught := 1050;
     getMetadata := ∅;
     request := request;
     throws_at := λ _, None |}.

(** The same collaborators, but for the call [g], which throws [e]. *)
Definition throwing (g : guarded) (e : value) (E : Collab) : Collab :=
  {| DEFAULT_LANG_HEADER := DEFAULT_LANG_HEADER E;
     DEFAULT_PROXY_HEADERS := DEFAULT_PROXY_HEADERS E;
     ECMA_STRING_SIZE := ECMA_STRING_SIZE E;
     Lang_Ru := Lang_Ru E;
     VERSION := VERSION E;
     validateArgs := validateArgs E;
     encodePathParams := encodePathParams E;
     getPathArgsProxy := getPathArgsProxy E;
     sanitizeDebugHeaders := sanitizeDebugHeaders E;
     redactSensitiveHeaders := redactSensitiveHeaders E;
     parseRestError := parseRestError E;
     member_text := member_text E;
     url_parse_host := url_parse_host E;
     querystring_stringify := querystring_stringify E;
     JSON_stringify := JSON_stringify E;
     encodeBody := encodeBody E;
     uuidv4 := uuidv4 E;
     now_start := now_start E;
     now_end := now_end E;
     now_caught := now_caught E;
     getMetadata := getMetadata E;
     request := request E;
     throws_at := λ g', if decide (g' = g) then Some e else throws_at E g' |}.

Definition ok (status : Z)
  : axiosClient → AxiosRequestConfig → completion response :=
  λ _ _, Returns {| resp_data := VStr "payload"; resp_headers := VObj ∅;
                    resp_status := VNum status |}.

Definition fails (error : value)
  : axiosClient → AxiosRequestConfig → completion response :=
  λ _ _, Throws error.

Definition parse_status : value → value → completion (option obj) :=
  λ error _, Returns (Some (object [
    ("status", lodash_get (get_path error "response") "status" (VNum 500));
    ("code", VStr "UNKNOWN");
    ("message", VStr "failed")])).

Definition parse_throws : value → value → completion (option obj) :=
  λ _ _, Throws (VStr "parser failed").

Definition endpoints : option EndpointsConfig :=
  Some {[ "endpoint" := PlainEndpoint "http://backend:8080" ]}.

Definition config (schema : value)
    (params : option (value → obj → completion (option ParamsOutput)))
    (transformData : option (value → value → value → completion value))
  : ApiServiceRestActionConfig :=
  {| cfg_method := "GET";
     cfg_path := PathStatic "/items";
     cfg_endpoint := EndpointUnset;
     cfg_validationSchema := schema;
     cfg_timeout := VUndef;
     cfg_retries := VUndef;
     cfg_idempotency := false;
     cfg_proxyHeaders := ProxyUnset;
     cfg_getAuthHeaders := None;
     cfg_params := params;
     cfg_transformResponseData := transformData;
     cfg_transformResponseError := None;
     cfg_paramsSerializer := SerializerUnset;
     cfg_maxRedirects := VUndef |}.

Definition plain : ApiServiceRestActionConfig := config VUndef None None.

Definition options (auth : authReturn) : GatewayApiOptions :=
  {| opt_serviceName := None;
     opt_timeout := VNum 5000;
     opt_axiosConfig := None;
     opt_validationSchema := VUndef;
     opt_proxyHeaders := ProxyFn (λ _ _, object [("x", VStr "2")]);
     opt_getAuthHeaders := λ _, auth;
     opt_encodePathArgs := VUndef;
     opt_sendStats := false |}.

Definition call (args : value) : ApiActionConfig :=
  {| ac_args := args;
     ac_requestId := VStr "req-1";
     ac_headers := object [("x", VStr "1")];
     ac_authArgs := VUndef;
     ac_timeout := VUndef |}.

Definition good_args : value := VObj ∅.
Definition bad_args : value := VObj (object [("invalid", VStr "id")]).
Definition schema : value := VObj ∅.

Definition override_params
  : value → obj → completion (option ParamsOutput) :=
  λ _ _, Returns (Some {| po_body := VUndef; po_query := VUndef;
                          po_headers := Some (object [("x-extra", VUndef)]) |}).

Definition throwing_transform : value → value → value → completion value :=
  λ _ _ _, Throws (VStr "boom").

(** A raw transport error carrying a 503 response. *)
Definition unavailable : value :=
  VObj (object [("response", VObj (object [("status", VNum 503)]))]).
End Sample.

(** ** Further readings of a trace *)

(** The collaborators called, in program order. *)
Definition calls (t : list event) : list callee :=
  omap (λ e, match e with EvCall c => Some c | _ => None end) t.

(** The recoverable failures handed to [handleError], with their messages. *)
Definition handled (t : list event) : list (value * string) :=
  omap (λ e, match e with
             | EvHandleError err msg => Some (err, msg)
             | _ => None
             end) t.

(** The stats records emitted, on either channel. *)
Definition stats_records (t : list event) : list obj :=
  omap (λ e, match e with
             | EvCtxStats record | EvSendStats record _ _ => Some record
             | _ => None
             end) t.

(** ** Further views of the header composition *)

(** What a proxy-header setting merges in at once (lines 163-164, 169-170):
    the result of the function form, nothing for the other forms. *)
Definition proxy_fn_headers (spec : proxyHeadersSpec) (requestHeaders : obj)
  : obj :=
  match spec with
  | ProxyFn f => f requestHeaders "rest"
  | ProxyList _ | ProxyUnset => ∅
  end.

(** The names a proxy-header setting adds to the pass-through list (lines
    165-166, 171-172). *)
Definition proxy_list (spec : proxyHeadersSpec) : list string :=
  match spec with
  | ProxyList names => names
  | ProxyFn _ | ProxyUnset => []
  end.

(** The combined pass-through list of line 175. *)
Definition proxy_names (E : Collab) (config : ApiServiceRestActionConfig)
    (options : GatewayApiOptions) : list string :=
  DEFAULT_PROXY_HEADERS E ++ proxy_list (opt_proxyHeaders options)
    ++ proxy_list (cfg_proxyHeaders config).

(** The names of the seed headers, lines 154-161. *)
Definition seed_names : list string :=
  ["host"; "accept"; "accept-encoding"; "accept-language"; "x-gateway-version"].

(** The headers before the pass-through copy (lines 154-173): the seed, the
    service-level function's headers over it, the action-level function's
    over both. *)
Definition merged (E : Collab) (config : ApiServiceRestActionConfig)
    (options : GatewayApiOptions) (url : string) (ac : ApiActionConfig) : obj :=
  assign
    (assign (seedHeaders E url (lang_of E (ac_headers ac)))
       (proxy_fn_headers (opt_proxyHeaders options) (ac_headers ac)))
    (proxy_fn_headers (cfg_proxyHeaders config) (ac_headers ac)).

(** ** Further views of the outcome *)

(** The debug headers a settled dispatch hands to its caller. *)
Definition debug_of (s : settled resolved) : option obj :=
  match s with
  | Resolve r => Some (debugHeaders r)
  | Reject v =>
      match v !! "debugHeaders" with
      | Some (VObj dh) => Some dh
      | _ => None
      end
  end.

(** A body preview: absent ([null]), or a non-empty string of fewer than 256
    characters. *)
Definition preview_ok (v : value) : Prop :=
  match v with
  | VNull => True
  | VStr s => (0 < String.length s < 256)%nat
  | _ => False
  end.

(** The value [getRestResponseSize] returns for a payload (lines 44-51). *)
Definition responseSizeOf (E : Collab) (data : value) : value :=
  match JSON_stringify E data with
  | Returns (Some s) => VNum (ECMA_STRING_SIZE E * Z.of_nat (String.length s))
  | Returns None => VNaN
  | Throws _ => VNum 0
  end.

(** The stats record that lines 313-317, 323-326, 372-380 and 386-389 build:
    the request data with the elapsed time, and over them the size and
    status fields of the channel. *)
Definition stats_record (E : Collab) (options : GatewayApiOptions)
    (requestData : obj) (endRequestTime : Z) (sizeOf status : value) : obj :=
  assign
    (<["requestTime" := VNum (endRequestTime - now_start E)]> requestData)
    (if opt_sendStats options
     then object [("responseSize", responseSizeOf E sizeOf);
                  ("restStatus", status)]
     else object [("responseStatus", status)]).

(** The collaborators [action] calls before the transport call (lines
    94-263). *)
Definition before_transport (c : callee) : bool :=
  match c with
  | CValidateArgs | CEndpointSelector | CEndpointLookup
  | CServiceProxyHeaders | CActionProxyHeaders | CGetAuthHeaders
  | CParams | CGetAxiosClient => true
  | CTransformResponseData | CTransformResponseError | CParseRestError => false
  end.

(** An event that is no call, or a call of a collaborator of the
    preparation. *)
Definition preparatory (e : event) : Prop :=
  match e with
  | EvCall c => before_transport c = true
  | _ => True
  end.

(** An event that is no call of a collaborator. *)
Definition no_call (e : event) : Prop :=
  match e with EvCall _ => False | _ => True end.

(** ** Further sample configurations and calls *)

Module Scenario.
Definition make (endpoint : endpointSelector) (idempotency : bool)
    (proxy : proxyHeadersSpec)
    (params : option (value → obj → completion (option ParamsOutput)))
    (transformData : option (value → value → value → completion value))
    (transformError : option (value → value → completion (option obj)))
  : ApiServiceRestActionConfig :=
  {| cfg_method := "POST";
     cfg_path := PathStatic "/items";
     cfg_endpoint := endpoint;
     cfg_validationSchema := VUndef;
     cfg_timeout := VUndef;
     cfg_retries := VNum 2;
     cfg_idempotency := idempotency;
     cfg_proxyHeaders := proxy;
     cfg_getAuthHeaders := None;
     cfg_params := params;
     cfg_transformResponseData := transformData;
     cfg_transformResponseError := transformError;
     cfg_paramsSerializer := SerializerUnset;
     cfg_maxRedirects := VUndef |}.

Definition basic : ApiServiceRestActionConfig :=
  make EndpointUnset false ProxyUnset None None None.

Definition options (proxy : proxyHeadersSpec) (sink : bool)
  : GatewayApiOptions :=
  {| opt_serviceName := Some "catalog";
     opt_timeout := VNum 5000;
     opt_axiosConfig := Some (object [("proxy", VBool false)]);
     opt_validationSchema := VUndef;
     opt_proxyHeaders := proxy;
     opt_getAuthHeaders :=
       λ _, AuthObject (object [("authorization", VStr "Bearer t")]);
     opt_encodePathArgs := VUndef;
     opt_sendStats := sink |}.

Definition call (headers : obj) : ApiActionConfig :=
  {| ac_args := VObj ∅;
     ac_requestId := VStr "req-7";
     ac_headers := headers;
     ac_authArgs := VUndef;
     ac_timeout := VUndef |}.

Definition inbound : obj :=
  object [("x", VStr "1"); ("cookie", VStr "secret");
          ("x-trace", VStr "t-1"); ("accept-language", VStr EmptyString)].

(** Inbound headers one of which has the name of a member of
    [Object.prototype]. *)
Definition odd_inbound : obj :=
  object [("x-trace", VStr "t-1"); ("constructor", VStr "c-1")].

Definition table : option EndpointsConfig :=
  Some (list_to_map
          [("endpoint", PlainEndpoint "http://backend:8080");
           ("slow", ExtendedEndpoint "http://slow:9090"
                      (Some (object [("timeout", VNum 30000);
                                     ("proxy", VBool true)])))]).

Definition throwing_params
  : value → obj → completion (option ParamsOutput) :=
  λ _ _, Throws (VStr "no params").

Definition own_headers : obj := object [("content-type", VStr "text/plain")].

Definition replacing_params
  : value → obj → completion (option ParamsOutput) :=
  λ _ _, Returns (Some {| po_body := VStr "body"; po_query := VUndef;
                          po_headers := Some own_headers |}).

Definition upper : value → value → value → completion value :=
  λ _ _ _, Returns (VStr "PAYLOAD").

Definition hook_error : obj :=
  object [("status", VNum 409); ("code", VStr "CONFLICT")].

Definition error_hook : value → value → completion (option obj) :=
  λ _ _, Returns (Some hook_error).

Definition failing_hook : value → value → completion (option obj) :=
  λ _ _, Throws (VStr "hook failed").

(** A raw error without response, as for a timeout. *)
Definition timed_out : value :=
  VObj (object [("code", VStr "ECONNABORTED")]).
End Scenario.

(** * Properties *)

(** ** The trace of a sequence *)

Lemma trace_bind {A B} (m : M A) (f : A → M B) :
  trace (m ≫= f) =
  trace m ++ match outcome m with Resolve a => trace (f a) | Reject _ => [] end.
Proof.
  destruct m as [t [a|v]]; unfold mbind, M_bind, trace, outcome; simpl.
  - destruct (f a); reflexivity.
  - by rewrite app_nil_r.
Qed.

Lemma outcome_bind {A B} (m : M A) (f : A → M B) :
  outcome (m ≫= f) =
  match outcome m with Resolve a => outcome (f a) | Reject v => Reject v end.
Proof.
  destruct m as [t [a|v]]; unfold mbind, M_bind, trace, outcome; simpl;
    [destruct (f a)|]; reflexivity.
Qed.

Lemma bind_assoc {A B C} (m : M A) (f : A → M B) (g : B → M C) :
  (m ≫= f) ≫= g = m ≫= (λ a, f a ≫= g).
Proof.
  destruct m as [t [a|v]]; unfold mbind, M_bind; simpl; [|reflexivity].
  destruct (f a) as [t' [b|v]]; simpl; [|reflexivity].
  destruct (g b) as [t'' r]. by rewrite app_assoc.
Qed.

Lemma bind_ret {A} (m : M A) : m ≫= mret = m.
Proof.
  destruct m as [t [a|v]]; unfold mbind, mret, M_bind, M_ret; simpl;
    [by rewrite app_nil_r | reflexivity].
Qed.

Lemma ret_bind {A B} (a : A) (f : A → M B) : mret a ≫= f = f a.
Proof. unfold mbind, mret, M_bind, M_ret. by destruct (f a). Qed.

Lemma bind_ext {A B} (m : M A) (f g : A → M B) :
  (∀ a, f a = g a) → m ≫= f = m ≫= g.
Proof.
  intros H. destruct m as [t [a|v]]; unfold mbind, M_bind; simpl;
    [by rewrite H | reflexivity].
Qed.

(** ** Computations that stay clear of stats, span closing and transport *)

Lemma quiet_app l1 l2 : quiet l1 → quiet l2 → quiet (l1 ++ l2).
Proof. unfold quiet. intros. by apply Forall_app. Qed.

Lemma prep_ret {A} (a : A) : prep (mret a).
Proof. by constructor. Qed.

Lemma prep_emit e : plain e = true → prep (emit e).
Proof. intros H. unfold prep; simpl. by repeat constructor. Qed.

Lemma prep_bind {A B} (m : M A) (f : A → M B) :
  prep m → (∀ a, outcome m = Resolve a → prep (f a)) → prep (m ≫= f).
Proof.
  unfold prep. rewrite outcome_bind, trace_bind.
  destruct (outcome m) as [a|v]; intros Hm Hf.
  - specialize (Hf a eq_refl). destruct (outcome (f a)).
    + by apply quiet_app.
    + destruct Hf as (l & -> & Hl). exists (trace m ++ l).
      split; [by rewrite app_assoc | by apply quiet_app].
  - by rewrite app_nil_r.
Qed.

Lemma prep_handleError e msg : prep (handleError e msg).
Proof. by apply prep_emit. Qed.

Ltac prep_step :=
  first
    [ apply prep_ret
    | apply prep_handleError
    | apply prep_emit; reflexivity
    | apply prep_bind; [| intros ? ?] ].

Section PrepPhases.
Context (E : Collab).
Context (endpoints : option EndpointsConfig)
        (config : ApiServiceRestActionConfig)
        (serviceKey actionName : string)
        (options : GatewayApiOptions).

Lemma early_reject_after_end {A} (l : list event) (v : obj) :
  quiet l → prep (A := A) (l ++ [EvEnd], Reject v).
Proof. intros H. exists l. done. Qed.

Lemma prep_validation args dh : prep (validation E config options args dh).
Proof.
  unfold validation.
  destruct (truthy (validationSchema _ _)); [|apply prep_ret].
  destruct (truthy (validateArgs _ _ _)).
  - apply (early_reject_after_end [_; _]). by repeat constructor.
  - by repeat constructor.
Qed.

Lemma prep_selectEndpoint args : prep (selectEndpoint endpoints config args).
Proof.
  unfold selectEndpoint. destruct (cfg_endpoint config) as [f|k|].
  - by repeat constructor.
  - destruct (String.eqb k _); by repeat constructor.
  - apply prep_ret.
Qed.

Lemma prep_endpointNotFound {A} :
  prep (A := A) (endpointNotFound serviceKey actionName options).
Proof. apply (early_reject_after_end [_]). by repeat constructor. Qed.

Lemma prep_resolveEndpoint args :
  prep (resolveEndpoint endpoints config serviceKey actionName options args).
Proof.
  unfold resolveEndpoint. apply prep_bind; [apply prep_selectEndpoint|].
  intros [e|] _; [destruct (endpoint_truthy _)|];
    first [apply prep_ret | apply prep_endpointNotFound].
Qed.

Lemma prep_injectProxyHeaders c spec rh st :
  prep (injectProxyHeaders c spec rh st).
Proof. destruct spec; by repeat constructor. Qed.

Lemma prep_composeHeaders url ac :
  prep (composeHeaders E config serviceKey options url ac).
Proof.
  unfold composeHeaders.
  repeat (apply prep_bind; [try apply prep_injectProxyHeaders | intros ? ?]).
  - by apply prep_emit.
  - apply prep_ret.
Qed.

Lemma prep_produceParams args h : prep (produceParams config args h).
Proof.
  unfold produceParams. destruct (cfg_params config) as [f|]; [|apply prep_ret].
  destruct (f args h); by repeat constructor.
Qed.

Lemma prep_bodyPreview body : prep (bodyPreview E body).
Proof. unfold bodyPreview. destruct (encodeBody E body); by repeat constructor. Qed.

Lemma prep_selectClient ac e : prep (selectClient config options ac e).
Proof.
  unfold selectClient. destruct (_ || _); by repeat constructor.
Qed.

Lemma prep_prepare ac :
  prep (prepare E endpoints config serviceKey actionName options ac).
Proof.
  unfold prepare.
  repeat (apply prep_bind;
          [ first [ by apply prep_emit | apply prep_validation
                  | apply prep_resolveEndpoint | apply prep_composeHeaders
                  | apply prep_produceParams | apply prep_bodyPreview
                  | apply prep_selectClient ]
          | intros ? ? ]).
  apply prep_ret.
Qed.

Lemma action_prepare ac :
  action E endpoints config serviceKey actionName options ac =
  prepare E endpoints config serviceKey actionName options ac ≫=
    (λ p, emit (EvRequest (p_client p) (p_config E config p));;
          finish E config serviceKey actionName options ac p).
Proof.
  unfold action, prepare.
  repeat (rewrite bind_assoc; apply bind_ext; intros ?).
  rewrite ret_bind. reflexivity.
Qed.
End PrepPhases.

Lemma calm_ret {A} (a : A) : calm (mret a).
Proof. split; [constructor | by exists a]. Qed.

Lemma calm_emit e : plain e = true → calm (emit e).
Proof. intros H. split; [by repeat constructor | by exists tt]. Qed.

Lemma calm_bind {A B} (m : M A) (f : A → M B) :
  calm m → (∀ a, calm (f a)) → calm (m ≫= f).
Proof.
  intros [Hq [a Ha]] Hf. destruct (Hf a) as [Hq' [b Hb]].
  split.
  - rewrite trace_bind, Ha. by apply quiet_app.
  - exists b. by rewrite outcome_bind, Ha.
Qed.

Section Finish.
Context (E : Collab).
Context (endpoints : option EndpointsConfig)
        (config : ApiServiceRestActionConfig)
        (serviceKey actionName : string)
        (options : GatewayApiOptions).

Lemma calm_getRestResponseSize data : calm (getRestResponseSize E data).
Proof.
  unfold getRestResponseSize. destruct (JSON_stringify E data) as [[s|]|e].
  - apply calm_ret.
  - apply calm_ret.
  - apply calm_bind; [by apply calm_emit | intros; apply calm_ret].
Qed.

Lemma calm_transformData args r : calm (transformData E config args r).
Proof.
  unfold transformData.
  destruct (cfg_transformResponseData config) as [hook|]; [|apply calm_ret].
  apply calm_bind; [by apply calm_emit | intros _].
  destruct (hook _ _ _).
  - apply calm_bind; [by apply calm_emit | intros _].
    destruct (throws_at E GLogTransformed); [|apply calm_ret].
    apply calm_bind; [by apply calm_emit | intros; apply calm_ret].
  - apply calm_bind; [by apply calm_emit | intros; apply calm_ret].
Qed.

Lemma calm_transformError args error : calm (transformError E config args error).
Proof.
  unfold transformError.
  destruct (cfg_transformResponseError config) as [hook|]; [|apply calm_ret].
  destruct (_ && _); [|apply calm_ret].
  apply calm_bind; [by apply calm_emit | intros _].
  destruct (hook _ _).
  - apply calm_bind; [by apply calm_emit | intros _].
    destruct (throws_at E GLogTransformedError); [|apply calm_ret].
    apply calm_bind; [by apply calm_emit | intros; apply calm_ret].
  - apply calm_bind; [by apply calm_emit | intros; apply calm_ret].
Qed.

Lemma calm_fallbackParse error lang p : calm (fallbackParse E error lang p).
Proof.
  unfold fallbackParse. destruct p; [apply calm_ret|].
  apply calm_bind; [by apply calm_emit | intros _].
  destruct (parseRestError _ _ _); [apply calm_ret|].
  apply calm_bind; [by apply calm_emit | intros; apply calm_ret].
Qed.

Lemma calm_normalizeError args error lang :
  calm (normalizeError E config args error lang).
Proof.
  apply calm_bind; [apply calm_transformError | intros; apply calm_fallbackParse].
Qed.

Lemma emitStats_spec rd sizeOf status h dh :
  ∃ l e, trace (emitStats E options rd sizeOf status h dh) = l ++ [e] ∧
    quiet l ∧ is_stats e = true ∧ via_sink e = opt_sendStats options ∧
    stats_status e = Some status ∧
    outcome (emitStats E options rd sizeOf status h dh) = Resolve tt.
Proof.
  unfold emitStats. destruct (opt_sendStats options).
  - destruct (calm_getRestResponseSize sizeOf) as [Hq [size Hs]].
    rewrite trace_bind, outcome_bind, Hs. simpl.
    eexists _, _. split; [reflexivity|]. repeat split; try done.
    unfold assign, object. by simplify_map_eq.
  - exists [], (EvCtxStats (assign rd (object [("responseStatus", status)]))).
    repeat split; try done; [constructor|].
    unfold assign, object. by simplify_map_eq.
Qed.

(** *** The body of the [try] *)

Lemma guard_returns {A} g (k : M (completion A)) :
  throws_at E g = None → guard E g k = k.
Proof. unfold guard. by intros ->. Qed.

Lemma guard_throws {A} g e (k : M (completion A)) :
  throws_at E g = Some e → guard E g k = mret (Throws e).
Proof. unfold guard. by intros ->. Qed.

Lemma first_throw_app l1 l2 :
  first_throw E (l1 ++ l2) =
  match first_throw E l1 with Some x => Some x | None => first_throw E l2 end.
Proof.
  induction l1 as [|g l1 IH]; [done|]. simpl.
  by destruct (throws_at E g).
Qed.

Lemma first_throw_None l g :
  first_throw E l = None → g ∈ l → throws_at E g = None.
Proof.
  induction l as [|g' l IH]; intros Hl Hg; [by apply elem_of_nil in Hg|].
  simpl in Hl. destruct (throws_at E g') eqn:Hg'; [done|].
  apply elem_of_cons in Hg as [->|Hg]; [done|]. by apply IH.
Qed.

Lemma first_throw_Some l g e :
  first_throw E l = Some (g, e) → g ∈ l ∧ throws_at E g = Some e.
Proof.
  induction l as [|g' l IH]; intros Hl; [done|].
  simpl in Hl. destruct (throws_at E g') eqn:Hg'.
  - injection Hl as <- <-. split; [apply list_elem_of_here | done].
  - destruct (IH Hl). split; [by apply list_elem_of_further | done].
Qed.

(** When none of its calls throws, the stats emission of the [try] block is
    that of the [catch] block, with status 200. *)
Lemma reportSuccess_returns {A} rd data h dh (k : M (completion A)) :
  first_throw E
    (if opt_sendStats options then [GRedact; GSanitizeStats; GSendStats]
     else [GCtxStats]) = None →
  reportSuccess E options rd data h dh k =
  (emitStats E options rd data (VNum 200) h dh;; k).
Proof.
  unfold reportSuccess, emitStats, guard. destruct (opt_sendStats options); simpl.
  - destruct (throws_at E GRedact); [done|].
    destruct (throws_at E GSanitizeStats); [done|].
    destruct (throws_at E GSendStats); [done|]. intros _.
    by rewrite bind_assoc.
  - by destruct (throws_at E GCtxStats).
Qed.

Lemma stops_at_None g :
  stops_at E options = None → g ∈ success_path options →
  throws_at E g = None.
Proof. apply first_throw_None. Qed.

(** When none of its calls throws, the body of the [try] is the sequence of
    its calls. *)
Lemma onSuccess_returns ac rd h dh r :
  stops_at E options = None →
  onSuccess E config options ac rd h dh r =
  (data ← transformData E config (ac_args ac) r;
   emitStats E options
     (<["requestTime" := VNum (now_end E - now_start E)]> rd) data (VNum 200)
     h dh;;
   emit (EvLog "Request completed"
           (VObj (object [("debugHeaders",
                           VObj (sanitizeDebugHeaders E dh))])));;
   emit EvEnd;;
   mret (Returns {| responseData := data; debugHeaders := dh |})).
Proof.
  intros Hstop. unfold onSuccess. apply bind_ext. intros data.
  assert (∀ g, g ∈ [GSanitizeLog; GLogCompleted; GEnd] →
               throws_at E g = None) as Hlate.
  { intros g Hg. apply (stops_at_None g Hstop). unfold success_path.
    apply elem_of_app. by right. }
  rewrite reportSuccess_returns.
  - rewrite !guard_returns; [done|apply Hlate..].
    + apply list_elem_of_further, list_elem_of_further, list_elem_of_here.
    + apply list_elem_of_further, list_elem_of_here.
    + apply list_elem_of_here.
  - unfold stops_at, success_path in Hstop. rewrite first_throw_app in Hstop.
    by destruct (first_throw E _).
Qed.

Lemma quiet_nil : quiet [].
Proof. constructor. Qed.

Lemma quiet_cons e l : plain e = true → quiet l → quiet (e :: l).
Proof. by constructor. Qed.

Lemma onSuccess_spec ac rd h dh r :
  ∃ data,
    outcome (transformData E config (ac_args ac) r) = Resolve data ∧
    match stops_at E options with
    | None =>
        outcome (onSuccess E config options ac rd h dh r) =
          Resolve (Returns {| responseData := data; debugHeaders := dh |}) ∧
        reported (opt_sendStats options) (VNum 200)
          (trace (onSuccess E config options ac rd h dh r))
    | Some (g, e) =>
        outcome (onSuccess E config options ac rd h dh r) =
          Resolve (Throws e) ∧
        attempted (opt_sendStats options) g
          (trace (onSuccess E config options ac rd h dh r))
    end.
Proof.
  destruct (calm_transformData (ac_args ac) r) as [Hq [data Hd]].
  exists data. split; [done|]. unfold onSuccess.
  set (rd' := <[_ := _]> rd).
  rewrite outcome_bind, trace_bind, Hd.
  unfold stops_at, success_path, reportSuccess, attempted, reported, guard.
  destruct (opt_sendStats options); cbn [first_throw app].
  - destruct (calm_getRestResponseSize data) as [Hqs [size Hs]].
    rewrite outcome_bind, trace_bind, Hs.
    set (ev := EvSendStats _ _ _).
    assert (is_stats ev = true ∧ via_sink ev = true ∧
            stats_status ev = Some (VNum 200)) as (He1 & He2 & He3).
    { repeat split. unfold ev, stats_status, assign, object. by simplify_map_eq. }
    destruct (throws_at E GRedact) as [e|].
    { split; [done|]. cbn. rewrite app_nil_r. by apply quiet_app. }
    destruct (throws_at E GSanitizeStats) as [e|].
    { split; [done|]. cbn. rewrite app_nil_r. by apply quiet_app. }
    destruct (throws_at E GSendStats) as [e|].
    { split; [done|]. cbn.
      exists (trace (transformData E config (ac_args ac) r)
                ++ trace (getRestResponseSize E data)), ev, [].
      split; [by rewrite <- app_assoc|]. split; [by apply quiet_app|].
      split; [apply quiet_nil|]. done. }
    destruct (throws_at E GSanitizeLog) as [e|].
    { split; [done|]. cbn.
      exists (trace (transformData E config (ac_args ac) r)
                ++ trace (getRestResponseSize E data)), ev, [].
      split; [by rewrite <- app_assoc|]. split; [by apply quiet_app|].
      split; [apply quiet_nil|]. done. }
    destruct (throws_at E GLogCompleted) as [e|].
    { split; [done|]. cbn.
      eexists (trace (transformData E config (ac_args ac) r)
                 ++ trace (getRestResponseSize E data)), ev, [_].
      split; [by rewrite <- app_assoc|]. split; [by apply quiet_app|].
      split; [by apply quiet_cons; [|apply quiet_nil]|]. done. }
    destruct (throws_at E GEnd) as [e|].
    { split; [done|]. cbn.
      eexists (trace (transformData E config (ac_args ac) r)
                 ++ trace (getRestResponseSize E data)), ev, [_].
      split; [by rewrite <- app_assoc|]. split; [by apply quiet_app|].
      split; [by apply quiet_cons; [|apply quiet_nil]|]. done. }
    split; [done|]. cbn.
    eexists (trace (transformData E config (ac_args ac) r)
               ++ trace (getRestResponseSize E data)), ev, [_].
    split; [by rewrite <- app_assoc|]. split; [by apply quiet_app|].
    split; [by apply quiet_cons; [|apply quiet_nil]|]. done.
  - set (ev := EvCtxStats _).
    assert (is_stats ev = true ∧ via_sink ev = false ∧
            stats_status ev = Some (VNum 200)) as (He1 & He2 & He3).
    { repeat split. unfold ev, stats_status, assign, object. by simplify_map_eq. }
    destruct (throws_at E GCtxStats) as [e|].
    { split; [done|]. cbn.
      exists (trace (transformData E config (ac_args ac) r)), ev, [].
      split; [done|]. split; [done|]. split; [apply quiet_nil|]. done. }
    destruct (throws_at E GSanitizeLog) as [e|].
    { split; [done|]. cbn.
      exists (trace (transformData E config (ac_args ac) r)), ev, [].
      split; [done|]. split; [done|]. split; [apply quiet_nil|]. done. }
    destruct (throws_at E GLogCompleted) as [e|].
    { split; [done|]. cbn.
      eexists (trace (transformData E config (ac_args ac) r)), ev, [_].
      split; [done|]. split; [done|].
      split; [by apply quiet_cons; [|apply quiet_nil]|]. done. }
    destruct (throws_at E GEnd) as [e|].
    { split; [done|]. cbn.
      eexists (trace (transformData E config (ac_args ac) r)), ev, [_].
      split; [done|]. split; [done|].
      split; [by apply quiet_cons; [|apply quiet_nil]|]. done. }
    split; [done|]. cbn.
    eexists (trace (transformData E config (ac_args ac) r)), ev, [_].
    split; [done|]. split; [done|].
    split; [by apply quiet_cons; [|apply quiet_nil]|]. done.
Qed.

Lemma onFailure_normalize t url ac rd h dh error :
  onFailure E config serviceKey options t url ac rd h dh error =
  normalizeError E config (ac_args ac) error (lang_of E (ac_headers ac)) ≫=
    (λ parsedError,
       emitStats E options
         (<["requestTime" := VNum (t - now_start E)]> rd)
         (get_path (get_path error "response") "data")
         (responseStatus parsedError error) h dh;;
       emit (EvLogError "Request failed" error
               (VObj (object [
                  ("actionURL", VStr url);
                  ("parsedError",
                     match parsedError with
                     | Some o => VObj o
                     | None => VUndef
                     end);
                  ("serviceName", VStr (serviceName serviceKey options));
                  ("debugHeaders", VObj (sanitizeDebugHeaders E dh))])));;
       emit EvEnd;;
       reject (failure parsedError (ac_requestId ac) dh)).
Proof. unfold onFailure, normalizeError. by rewrite bind_assoc. Qed.

Lemma onFailure_spec t url ac rd h dh error :
  ∃ parsed,
    outcome (normalizeError E config (ac_args ac) error
               (lang_of E (ac_headers ac))) = Resolve parsed ∧
    outcome (onFailure E config serviceKey options t url ac rd h dh error) =
      Reject (failure parsed (ac_requestId ac) dh) ∧
    reported (opt_sendStats options) (responseStatus parsed error)
      (trace (onFailure E config serviceKey options t url ac rd h dh error)).
Proof.
  destruct (calm_normalizeError (ac_args ac) error (lang_of E (ac_headers ac)))
    as [Hq [parsed Hp]].
  exists parsed. split; [done|]. rewrite onFailure_normalize.
  set (rd' := <[_ := _]> rd).
  destruct (emitStats_spec rd' (get_path (get_path error "response") "data")
              (responseStatus parsed error) h dh)
    as (l & e & Ht & Hl & He & Hv & Hs & Ho).
  split.
  - rewrite outcome_bind, Hp, outcome_bind, Ho. reflexivity.
  - rewrite trace_bind, Hp, trace_bind, Ho, Ht. simpl.
    eexists (trace (normalizeError _ _ _ _ _) ++ l), e, [_].
    split; [by rewrite <- !app_assoc|].
    split; [by apply quiet_app|]. split; [by repeat constructor|]. done.
Qed.

(** What [settle] does with a completion of the transport call. *)
Lemma settle_spec url ac rd h dh c :
  match c with
  | Returns r =>
      ∃ data,
        outcome (transformData E config (ac_args ac) r) = Resolve data ∧
        match stops_at E options with
        | None =>
            outcome (settle E config serviceKey options url ac rd h dh c) =
              Resolve {| responseData := data; debugHeaders := dh |} ∧
            reported (opt_sendStats options) (VNum 200)
              (trace (settle E config serviceKey options url ac rd h dh c))
        | Some (g, error) =>
            ∃ parsed t1 t2,
              outcome (normalizeError E config (ac_args ac) error
                         (lang_of E (ac_headers ac))) = Resolve parsed ∧
              outcome (settle E config serviceKey options url ac rd h dh c) =
                Reject (failure parsed (ac_requestId ac) dh) ∧
              trace (settle E config serviceKey options url ac rd h dh c) =
                t1 ++ t2 ∧
              attempted (opt_sendStats options) g t1 ∧
              reported (opt_sendStats options) (responseStatus parsed error) t2
        end
  | Throws error =>
      ∃ parsed,
        outcome (normalizeError E config (ac_args ac) error
                   (lang_of E (ac_headers ac))) = Resolve parsed ∧
        outcome (settle E config serviceKey options url ac rd h dh c) =
          Reject (failure parsed (ac_requestId ac) dh) ∧
        reported (opt_sendStats options) (responseStatus parsed error)
          (trace (settle E config serviceKey options url ac rd h dh c))
  end.
Proof.
  destruct c as [r|error]; [|apply onFailure_spec].
  destruct (onSuccess_spec ac rd h dh r) as (data & Hd & Hs).
  exists data. split; [done|]. unfold settle.
  destruct (stops_at E options) as [[g error]|].
  - destruct Hs as [Ho Ht].
    destruct (onFailure_spec (now_caught E) url ac rd h dh error)
      as (parsed & Hn & Hfo & Hfr).
    exists parsed. eexists _, _. split; [done|].
    rewrite outcome_bind, trace_bind, Ho. done.
  - destruct Hs as [Ho Ht]. rewrite outcome_bind, trace_bind, Ho.
    split; [done|]. cbn. by rewrite app_nil_r.
Qed.

Lemma settle_trace_prefix url ac rd h dh r :
  ∃ rest,
    trace (settle E config serviceKey options url ac rd h dh (Returns r)) =
    trace (transformData E config (ac_args ac) r) ++ rest.
Proof.
  unfold settle, onSuccess. rewrite !trace_bind, <- app_assoc. by eexists.
Qed.
End Finish.

Lemma count_app p l1 l2 : count p (l1 ++ l2) = (count p l1 + count p l2)%nat.
Proof. unfold count. by rewrite filter_app, length_app. Qed.

Lemma count_cons p e l :
  count p (e :: l) = ((if p e then 1 else 0) + count p l)%nat.
Proof.
  unfold count. rewrite filter_cons. destruct (p e) eqn:He.
  - by rewrite decide_True.
  - by rewrite decide_False by (by intros ?).
Qed.

Lemma quiet_plain l e : quiet l → e ∈ l → plain e = true.
Proof. unfold quiet. rewrite Forall_forall. auto. Qed.

Lemma plain_not p e :
  (∀ e, p e = true → plain e = false) → plain e = true → p e = false.
Proof. intros H Hp. destruct (p e) eqn:He; [|done]. apply H in He. congruence. Qed.

Lemma quiet_count p l :
  (∀ e, p e = true → plain e = false) → quiet l → count p l = 0%nat.
Proof.
  intros Hp. induction 1 as [|e l He _ IH]; [done|].
  rewrite count_cons, IH. by rewrite (plain_not p e Hp He).
Qed.

Lemma stats_not_plain e : is_stats e = true → plain e = false.
Proof. by destruct e. Qed.
Lemma end_not_plain e : is_end e = true → plain e = false.
Proof. by destruct e. Qed.
Lemma request_not_plain e : is_request e = true → plain e = false.
Proof. by destruct e. Qed.

Lemma quiet_counts l :
  quiet l →
  count is_stats l = 0%nat ∧ count is_end l = 0%nat ∧ count is_request l = 0%nat.
Proof.
  intros H. repeat split; apply quiet_count; try done.
  - apply stats_not_plain.
  - apply end_not_plain.
  - apply request_not_plain.
Qed.

Lemma early_counts t :
  early t →
  count is_stats t = 0%nat ∧ count is_end t = 1%nat ∧ count is_request t = 0%nat ∧
  last t = Some EvEnd.
Proof.
  intros (l & -> & Hl). destruct (quiet_counts l Hl) as (Hs & He & Hr).
  rewrite !count_app, Hs, He, Hr, last_snoc. done.
Qed.

Lemma reported_counts sink status t :
  reported sink status t →
  count is_stats t = 1%nat ∧ count is_end t = 1%nat ∧ count is_request t = 0%nat ∧
  last t = Some EvEnd.
Proof.
  intros (l1 & e & l2 & -> & H1 & H2 & He & _).
  destruct (quiet_counts l1 H1) as (Hs1 & He1 & Hr1).
  destruct (quiet_counts l2 H2) as (Hs2 & He2 & Hr2).
  rewrite !count_app, !count_cons, !count_app, Hs1, He1, Hr1, Hs2, He2, Hr2, He.
  replace (l1 ++ e :: l2 ++ [EvEnd]) with ((l1 ++ e :: l2) ++ [EvEnd])
    by (by rewrite <- app_assoc).
  rewrite last_snoc. by destruct e.
Qed.

Lemma reported_stats sink status t e :
  reported sink status t → e ∈ t → is_stats e = true →
  via_sink e = sink ∧ stats_status e = Some status.
Proof.
  intros (l1 & e' & l2 & -> & H1 & H2 & He' & Hv & Hs) Hin He.
  rewrite elem_of_app, elem_of_cons, elem_of_app, list_elem_of_singleton in Hin.
  destruct Hin as [Hin|[->|[Hin| ->]]]; try done.
  - apply (quiet_plain _ _ H1) in Hin. rewrite stats_not_plain in Hin; done.
  - apply (quiet_plain _ _ H2) in Hin. rewrite stats_not_plain in Hin; done.
Qed.

Lemma reported_no_request sink status t c rc :
  reported sink status t → EvRequest c rc ∉ t.
Proof.
  intros (l1 & e' & l2 & -> & H1 & H2 & He' & _) Hin.
  rewrite elem_of_app, elem_of_cons, elem_of_app, list_elem_of_singleton in Hin.
  destruct Hin as [Hin|[<-|[Hin|?]]]; try done.
  - by apply (quiet_plain _ _ H1) in Hin.
  - by apply (quiet_plain _ _ H2) in Hin.
Qed.

Lemma attempted_counts sink g t :
  attempted sink g t →
  count is_stats t = (if before_stats g then 0 else 1)%nat ∧
  count is_end t = (if closes_span g then 1 else 0)%nat ∧
  count is_request t = 0%nat.
Proof.
  unfold attempted. destruct (before_stats g) eqn:Hb.
  - intros Hq. destruct (quiet_counts t Hq) as (-> & -> & ->).
    by destruct g.
  - intros (l1 & e & l2 & -> & H1 & H2 & He & _).
    destruct (quiet_counts l1 H1) as (Hs1 & He1 & Hr1).
    destruct (quiet_counts l2 H2) as (Hs2 & He2 & Hr2).
    rewrite !count_app, !count_cons, !count_app, Hs1, He1, Hr1, Hs2, He2, Hr2, He.
    destruct e; try done; by destruct (closes_span g).
Qed.

Lemma attempted_stats sink g t e :
  attempted sink g t → e ∈ t → is_stats e = true →
  via_sink e = sink ∧ stats_status e = Some (VNum 200).
Proof.
  unfold attempted. destruct (before_stats g).
  - intros Hq Hin He. apply (quiet_plain _ _ Hq) in Hin.
    by rewrite stats_not_plain in Hin.
  - intros (l1 & e' & l2 & -> & H1 & H2 & He' & Hv & Hs) Hin He.
    rewrite elem_of_app, elem_of_cons, elem_of_app in Hin.
    destruct Hin as [Hin|[->|[Hin|Hin]]]; try done.
    + apply (quiet_plain _ _ H1) in Hin. rewrite stats_not_plain in Hin; done.
    + apply (quiet_plain _ _ H2) in Hin. rewrite stats_not_plain in Hin; done.
    + destruct (closes_span g); [|by apply elem_of_nil in Hin].
      apply list_elem_of_singleton in Hin as ->. done.
Qed.

Lemma attempted_no_request sink g t c rc :
  attempted sink g t → EvRequest c rc ∉ t.
Proof.
  unfold attempted. destruct (before_stats g).
  - intros Hq Hin. by apply (quiet_plain _ _ Hq) in Hin.
  - intros (l1 & e' & l2 & -> & H1 & H2 & He' & _) Hin.
    rewrite elem_of_app, elem_of_cons, elem_of_app in Hin.
    destruct Hin as [Hin|[<-|[Hin|Hin]]]; try done.
    + by apply (quiet_plain _ _ H1) in Hin.
    + by apply (quiet_plain _ _ H2) in Hin.
    + destruct (closes_span g); [|by apply elem_of_nil in Hin].
      by apply list_elem_of_singleton in Hin.
Qed.

Lemma handled_app t1 t2 : handled (t1 ++ t2) = handled t1 ++ handled t2.
Proof. apply omap_app. Qed.

Lemma statuses_app t1 t2 : statuses (t1 ++ t2) = statuses t1 ++ statuses t2.
Proof. apply omap_app. Qed.

Lemma statuses_cons e t :
  statuses (e :: t) =
  (if is_stats e then [stats_status e] else []) ++ statuses t.
Proof. unfold statuses. simpl. by destruct (is_stats e). Qed.

Lemma quiet_statuses t : quiet t → statuses t = [].
Proof.
  induction 1 as [|e t He _ IH]; [done|].
  rewrite statuses_cons, IH.
  by rewrite (plain_not is_stats e stats_not_plain He).
Qed.

Lemma reported_statuses sink status t :
  reported sink status t → statuses t = [Some status].
Proof.
  intros (l1 & e & l2 & -> & H1 & H2 & He & _ & Hs).
  rewrite statuses_app, statuses_cons, statuses_app, He, Hs.
  by rewrite (quiet_statuses _ H1), (quiet_statuses _ H2).
Qed.

Lemma attempted_statuses sink g t :
  attempted sink g t →
  statuses t = if before_stats g then [] else [Some (VNum 200)].
Proof.
  unfold attempted. destruct (before_stats g).
  - apply quiet_statuses.
  - intros (l1 & e & l2 & -> & H1 & H2 & He & _ & Hs).
    rewrite statuses_app, statuses_cons, !statuses_app, He, Hs.
    rewrite (quiet_statuses _ H1), (quiet_statuses _ H2).
    by destruct (closes_span g).
Qed.

Lemma reported_last sink status t : reported sink status t → last t = Some EvEnd.
Proof. intros H. by destruct (reported_counts _ _ _ H) as (_ & _ & _ & ?). Qed.

Lemma last_app_reported sink status t1 t2 :
  reported sink status t2 → last (t1 ++ t2) = Some EvEnd.
Proof.
  intros (l1 & e & l2 & -> & _).
  replace (t1 ++ l1 ++ e :: l2 ++ [EvEnd])
    with ((t1 ++ l1 ++ e :: l2) ++ [EvEnd])
    by (by rewrite <- !app_assoc).
  apply last_snoc.
Qed.

Section Structure.
Context (E : Collab).
Context (endpoints : option EndpointsConfig)
        (config : ApiServiceRestActionConfig)
        (serviceKey actionName : string)
        (options : GatewayApiOptions).

Abbreviation run := (action E endpoints config serviceKey actionName options).
Abbreviation pre := (prepare E endpoints config serviceKey actionName options).
Abbreviation fin := (finish E config serviceKey actionName options).

Lemma finish_spec ac p :
  match request E (p_client p) (p_config E config p) with
  | Returns r =>
      ∃ data,
        outcome (transformData E config (ac_args ac) r) = Resolve data ∧
        match stops_at E options with
        | None =>
            outcome (fin ac p) =
              Resolve {| responseData := data;
                         debugHeaders := p_debugHeaders p |} ∧
            reported (opt_sendStats options) (VNum 200) (trace (fin ac p))
        | Some (g, error) =>
            ∃ parsed t1 t2,
              outcome (normalizeError E config (ac_args ac) error
                         (lang_of E (ac_headers ac))) = Resolve parsed ∧
              outcome (fin ac p) =
                Reject (failure parsed (ac_requestId ac) (p_debugHeaders p)) ∧
              trace (fin ac p) = t1 ++ t2 ∧
              attempted (opt_sendStats options) g t1 ∧
              reported (opt_sendStats options) (responseStatus parsed error) t2
        end
  | Throws error =>
      ∃ parsed,
        outcome (normalizeError E config (ac_args ac) error
                   (lang_of E (ac_headers ac))) = Resolve parsed ∧
        outcome (fin ac p) =
          Reject (failure parsed (ac_requestId ac) (p_debugHeaders p)) ∧
        reported (opt_sendStats options) (responseStatus parsed error)
          (trace (fin ac p))
  end.
Proof.
  unfold finish.
  apply (settle_spec E config serviceKey options (p_url p) ac
           (requestData E config serviceKey actionName options (p_url p) ac)
           (p_headers p) (p_debugHeaders p)
           (request E (p_client p) (p_config E config p))).
Qed.

(** What follows the transport call, in numbers: no further transport call;
    stats on the configured channel, once, or twice when a call of the
    success path threw after the first emission; the span closed once, or
    twice when its first closing threw, and closed last. *)
Lemma finish_summary ac p :
  let t := trace (fin ac p) in
  count is_request t = 0%nat ∧ last t = Some EvEnd ∧
  (∀ e, e ∈ t → is_stats e = true → via_sink e = opt_sendStats options) ∧
  match request E (p_client p) (p_config E config p), stops_at E options with
  | Returns _, Some (g, _) =>
      count is_stats t = (if before_stats g then 1 else 2)%nat ∧
      count is_end t = (if closes_span g then 2 else 1)%nat
  | _, _ => count is_stats t = 1%nat ∧ count is_end t = 1%nat
  end.
Proof.
  intros t. subst t. pose proof (finish_spec ac p) as Hf.
  destruct (request E _ _) as [r|error].
  - destruct Hf as (data & _ & Hf).
    destruct (stops_at E options) as [[g error]|].
    + destruct Hf as (parsed & t1 & t2 & _ & _ & -> & H1 & H2).
      destruct (attempted_counts _ _ _ H1) as (Hs1 & He1 & Hr1).
      destruct (reported_counts _ _ _ H2) as (Hs2 & He2 & Hr2 & _).
      rewrite !count_app, Hs1, He1, Hr1, Hs2, He2, Hr2.
      split; [done|]. split; [by eapply last_app_reported|].
      split.
      * intros e Hin He. apply elem_of_app in Hin as [Hin|Hin].
        -- by destruct (attempted_stats _ _ _ _ H1 Hin He).
        -- by destruct (reported_stats _ _ _ _ H2 Hin He).
      * by destruct (before_stats g), (closes_span g).
    + destruct Hf as [_ Hr].
      destruct (reported_counts _ _ _ Hr) as (? & ? & ? & ?).
      repeat split; try done. intros e Hin He.
      by destruct (reported_stats _ _ _ _ Hr Hin He).
  - destruct Hf as (parsed & _ & _ & Hr).
    destruct (reported_counts _ _ _ Hr) as (? & ? & ? & ?).
    split; [done|]. split; [done|]. split.
    + intros e Hin He. by destruct (reported_stats _ _ _ _ Hr Hin He).
    + by destruct (stops_at E options) as [[g ?]|].
Qed.

Lemma finish_trace_prefix ac p r :
  request E (p_client p) (p_config E config p) = Returns r →
  ∃ rest,
    trace (fin ac p) = trace (transformData E config (ac_args ac) r) ++ rest.
Proof. intros Hr. unfold finish. rewrite Hr. apply settle_trace_prefix. Qed.

Lemma finish_no_request ac p c rc : EvRequest c rc ∉ trace (fin ac p).
Proof.
  intros Hin. destruct (finish_summary ac p) as (Hr & _).
  unfold count in Hr. apply length_zero_iff_nil in Hr.
  assert (EvRequest c rc ∈ filter (λ e, is_request e = true) (trace (fin ac p)))
    as Hf by (by apply list_elem_of_filter).
  rewrite Hr in Hf. by apply elem_of_nil in Hf.
Qed.

(** The dispatch settles as what follows the transport call does. *)
Lemma finish_rejects ac p v :
  outcome (fin ac p) = Reject v →
  v !! "debugHeaders" = Some (VObj (p_debugHeaders p)).
Proof.
  intros Ho. pose proof (finish_spec ac p) as Hf.
  assert (∀ parsed, failure parsed (ac_requestId ac) (p_debugHeaders p)
                      !! "debugHeaders" = Some (VObj (p_debugHeaders p))) as Hdh.
  { intros parsed. unfold failure, object. rewrite !list_to_map_cons.
    cbn [fst snd]. rewrite lookup_insert_ne by done. apply lookup_insert_eq. }
  destruct (request E _ _) as [r|error].
  - destruct Hf as (data & _ & Hf).
    destruct (stops_at E options) as [[g error]|].
    + destruct Hf as (parsed & t1 & t2 & _ & Hfo & _).
      rewrite Hfo in Ho. injection Ho as <-. apply Hdh.
    + destruct Hf as [Hfo _]. congruence.
  - destruct Hf as (parsed & _ & Hfo & _).
    rewrite Hfo in Ho. injection Ho as <-. apply Hdh.
Qed.

Lemma action_cases ac :
  match outcome (pre ac) with
  | Resolve p =>
      trace (run ac) =
        trace (pre ac) ++
        EvRequest (p_client p) (p_config E config p) :: trace (fin ac p) ∧
      outcome (run ac) = outcome (fin ac p) ∧
      quiet (trace (pre ac))
  | Reject v =>
      trace (run ac) = trace (pre ac) ∧
      outcome (run ac) = Reject v ∧
      early (trace (pre ac))
  end.
Proof.
  pose proof (prep_prepare E endpoints config serviceKey actionName options ac)
    as Hp.
  rewrite action_prepare, trace_bind, outcome_bind. unfold prep in Hp.
  destruct (outcome (pre ac)) as [p|v].
  - rewrite trace_bind, outcome_bind. done.
  - by rewrite app_nil_r.
Qed.

Lemma request_in_action ac c rc :
  EvRequest c rc ∈ trace (run ac) →
  ∃ p, outcome (pre ac) = Resolve p ∧ c = p_client p ∧
       rc = p_config E config p.
Proof.
  intros Hin. pose proof (action_cases ac) as H.
  destruct (outcome (pre ac)) as [p|v].
  - destruct H as (Ht & _ & Hq). exists p. split; [done|].
    rewrite Ht, elem_of_app, elem_of_cons in Hin.
    destruct Hin as [Hin|[Heq|Hin]].
    + by apply (quiet_plain _ _ Hq) in Hin.
    + by inversion Heq.
    + by apply finish_no_request in Hin.
  - destruct H as (Ht & _ & l & Hl & Hq). rewrite Ht, Hl in Hin.
    rewrite elem_of_app, list_elem_of_singleton in Hin.
    destruct Hin as [Hin|?]; [|done].
    by apply (quiet_plain _ _ Hq) in Hin.
Qed.
End Structure.

Section Prepare.
Context (E : Collab).
Context (endpoints : option EndpointsConfig)
        (config : ApiServiceRestActionConfig)
        (serviceKey actionName : string)
        (options : GatewayApiOptions).

Abbreviation run := (action E endpoints config serviceKey actionName options).
Abbreviation pre := (prepare E endpoints config serviceKey actionName options).
Abbreviation fin := (finish E config serviceKey actionName options).
Abbreviation vfails := (validation_fails E config options).
Abbreviation chosen := (selectedEndpoint endpoints config).

Lemma calm_selectEndpoint args : calm (selectEndpoint endpoints config args).
Proof.
  unfold selectEndpoint. destruct (cfg_endpoint config) as [f|k|].
  - apply calm_bind; [by apply calm_emit | intros; apply calm_ret].
  - destruct (String.eqb k _); [apply calm_ret|].
    apply calm_bind; [by apply calm_emit | intros; apply calm_ret].
  - apply calm_ret.
Qed.

Lemma calm_injectProxyHeaders c spec rh st : calm (injectProxyHeaders c spec rh st).
Proof.
  destruct spec; try apply calm_ret.
  apply calm_bind; [by apply calm_emit | intros; apply calm_ret].
Qed.

Lemma calm_composeHeaders url ac :
  calm (composeHeaders E config serviceKey options url ac).
Proof.
  unfold composeHeaders.
  repeat (apply calm_bind; [try apply calm_injectProxyHeaders | intros ?]).
  - by apply calm_emit.
  - apply calm_ret.
Qed.

Lemma calm_produceParams args h : calm (produceParams config args h).
Proof.
  unfold produceParams. destruct (cfg_params config) as [f|]; [|apply calm_ret].
  apply calm_bind; [by apply calm_emit | intros _].
  destruct (f args h); [apply calm_ret|].
  apply calm_bind; [by apply calm_emit | intros; apply calm_ret].
Qed.

Lemma calm_bodyPreview body : calm (bodyPreview E body).
Proof.
  unfold bodyPreview. destruct (encodeBody E body); [apply calm_ret|].
  apply calm_bind; [by apply calm_emit | intros; apply calm_ret].
Qed.

Lemma selectClient_spec ac e :
  ∃ c, outcome (selectClient config options ac e) = Resolve c ∧
       client_site c = CallSite ∧
       client_timeout c =
         coalesce (ac_timeout ac)
           (coalesce (cfg_timeout config)
              (coalesce (get (endpointAxiosConfig e) "timeout")
                 (coalesce (cfg_timeout config) (opt_timeout options)))) ∧
       trace (selectClient config options ac e) = [EvCall CGetAxiosClient].
Proof.
  unfold selectClient. replace (truthy (VObj _)) with true by done.
  rewrite orb_true_r. eexists. repeat split.
Qed.

Lemma validation_outcome args dh :
  outcome (validation E config options args dh) =
  if vfails args
  then Reject (invalidParamsRejection
                 (validateArgs E args (validationSchema config options)) dh)
  else Resolve tt.
Proof.
  unfold validation, validation_fails.
  destruct (truthy (validationSchema config options)); [|done].
  by destruct (truthy (validateArgs _ _ _)).
Qed.

Lemma resolveEndpoint_outcome args :
  outcome (resolveEndpoint endpoints config serviceKey actionName options args) =
  match chosen args with
  | Some e =>
      if endpoint_truthy (Some e) then Resolve e
      else Reject (endpointNotFoundRejection serviceKey)
  | None => Reject (endpointNotFoundRejection serviceKey)
  end.
Proof.
  unfold resolveEndpoint, selectedEndpoint. rewrite outcome_bind.
  destruct (calm_selectEndpoint args) as [_ [e ->]].
  destruct e as [e|]; [|done]. by destruct (endpoint_truthy _).
Qed.

(** What [prepare] hands to the transport call, when it gets there. *)
Lemma prepare_cases ac :
  let args := ac_args ac in
  if vfails args then
    outcome (pre ac) =
      Reject (invalidParamsRejection
                (validateArgs E args (validationSchema config options)) ∅)
  else
    match chosen args with
    | Some e =>
        if endpoint_truthy (Some e) then
          let url := actionURL E config options e args in
          ∃ h params rb c,
            outcome (composeHeaders E config serviceKey options url ac) =
              Resolve h ∧
            outcome (produceParams config args h) = Resolve params ∧
            outcome (selectClient config options ac e) = Resolve c ∧
            outcome (pre ac) =
              Resolve {| p_url := url; p_body := body_of params;
                         p_query := query_of params;
                         p_headers := headers_of params h;
                         p_debugHeaders :=
                           buildDebugHeaders E config url ac (query_of params)
                             (headers_of params h) rb;
                         p_client := c |}
        else outcome (pre ac) = Reject (endpointNotFoundRejection serviceKey)
    | None => outcome (pre ac) = Reject (endpointNotFoundRejection serviceKey)
    end.
Proof.
  intros args. unfold prepare. fold args.
  do 3 rewrite outcome_bind. cbn [outcome emit snd]. rewrite validation_outcome.
  destruct (vfails args); [done|].
  rewrite outcome_bind, resolveEndpoint_outcome.
  destruct (chosen args) as [e|]; [|done].
  destruct (endpoint_truthy (Some e)); [|done].
  set (url := actionURL E config options e args).
  destruct (calm_composeHeaders url ac) as [_ [h Hh]].
  destruct (calm_produceParams args h) as [_ [params Hp]].
  destruct (calm_bodyPreview (body_of params)) as [_ [rb Hb]].
  destruct (selectClient_spec ac e) as (c & Hc & _).
  exists h, params, rb, c.
  rewrite outcome_bind, Hh, outcome_bind, Hp, outcome_bind, Hb, outcome_bind, Hc.
  done.
Qed.
End Prepare.

(** ** Objects *)

Lemma get_Some (o : obj) k v : o !! k = Some v → get o k = v.
Proof. unfold get. by intros ->. Qed.

Lemma read_Some (o : obj) k v : o !! k = Some v → read o k = v.
Proof. unfold read. by intros ->. Qed.

Lemma read_None (o : obj) k :
  o !! k = None → read o k = if inherited k then VInherited k else VUndef.
Proof. unfold read. by intros ->. Qed.

Lemma assign_lookup_src (target src : obj) k v :
  src !! k = Some v → assign target src !! k = Some v.
Proof. intros H. unfold assign. by apply lookup_union_Some_l. Qed.

Lemma assign_lookup_target (target src : obj) k :
  src !! k = None → assign target src !! k = target !! k.
Proof. intros H. unfold assign. by apply lookup_union_r. Qed.

Lemma omit_undefined_lookup (o : obj) k v :
  omit_undefined o !! k = Some v ↔ o !! k = Some v ∧ v ≠ VUndef.
Proof.
  unfold omit_undefined. rewrite map_lookup_filter_Some. simpl.
  split; intros [H1 H2]; (split; [done|]); by destruct v.
Qed.

Lemma omit_undefined_defined (o : obj) k : omit_undefined o !! k ≠ Some VUndef.
Proof. intros H. apply omit_undefined_lookup in H. by destruct H. Qed.

Section Headers.
Context (E : Collab).
Context (config : ApiServiceRestActionConfig)
        (serviceKey : string)
        (options : GatewayApiOptions).

Lemma passthrough_keeps rh names (h : obj) k v :
  h !! k = Some v → v ≠ VUndef → passthrough rh names h !! k = Some v.
Proof.
  intros Hk Hv. revert h Hk. unfold passthrough.
  induction names as [|n names IH]; intros h Hk; [done|]. simpl.
  apply IH. destruct (is_undef (read h n)) eqn:Hn; [|done].
  destruct (decide (n = k)) as [->|Hne].
  - rewrite (read_Some _ _ _ Hk) in Hn. by destruct v.
  - by rewrite lookup_insert_ne.
Qed.

Lemma stampRequestId_other rid (h : obj) k :
  k ≠ "x-request-id" → stampRequestId rid h !! k = h !! k.
Proof.
  intros Hk. unfold stampRequestId. destruct (truthy rid); [|done].
  by rewrite lookup_insert_ne.
Qed.

Lemma stampIdempotency_other rh (h : obj) k :
  k ≠ "idempotency-key" → stampIdempotency E config rh h !! k = h !! k.
Proof.
  intros Hk. unfold stampIdempotency. destruct (cfg_idempotency config); [|done].
  by rewrite lookup_insert_ne.
Qed.

Lemma injectProxyHeaders_outcome c spec rh st :
  outcome (injectProxyHeaders c spec rh st) =
  Resolve match spec with
          | ProxyFn f => (assign st.1 (f rh "rest"), st.2)
          | ProxyList names => (st.1, st.2 ++ names)
          | ProxyUnset => st
          end.
Proof. by destruct spec. Qed.

(** The value of the composed headers: the provider's return value is merged
    last, and the result is pruned. *)
Lemma composeHeaders_outcome url ac :
  ∃ st1 st2,
    outcome (injectProxyHeaders CServiceProxyHeaders (opt_proxyHeaders options)
               (ac_headers ac)
               (seedHeaders E url (lang_of E (ac_headers ac)),
                DEFAULT_PROXY_HEADERS E)) = Resolve st1 ∧
    outcome (injectProxyHeaders CActionProxyHeaders (cfg_proxyHeaders config)
               (ac_headers ac) st1) = Resolve st2 ∧
    outcome (composeHeaders E config serviceKey options url ac) =
      Resolve (omit_undefined
                 (assignAuth
                    (stampIdempotency E config (ac_headers ac)
                       (stampRequestId (ac_requestId ac)
                          (passthrough (ac_headers ac) st2.2 st2.1)))
                    (authProvider config options
                       (authParams serviceKey options ac)))).
Proof.
  unfold composeHeaders. eexists _, _.
  split; [apply injectProxyHeaders_outcome|].
  split; [apply injectProxyHeaders_outcome|].
  rewrite outcome_bind, injectProxyHeaders_outcome.
  rewrite outcome_bind, injectProxyHeaders_outcome.
  reflexivity.
Qed.

(** A defined header set by a synchronous auth provider is in the composed
    headers, whatever the earlier steps did. *)
Lemma composeHeaders_auth url ac ah k v h :
  authProvider config options (authParams serviceKey options ac) = AuthObject ah →
  ah !! k = Some v → v ≠ VUndef →
  outcome (composeHeaders E config serviceKey options url ac) = Resolve h →
  h !! k = Some v.
Proof.
  intros Hauth Hk Hv Hh.
  destruct (composeHeaders_outcome url ac) as (st1 & st2 & _ & _ & Ho).
  rewrite Ho, Hauth in Hh. injection Hh as <-.
  apply omit_undefined_lookup. split; [|done].
  by apply assign_lookup_src.
Qed.

Lemma assignAuth_silent (h : obj) r k :
  auth_silent r k → assignAuth h r !! k = h !! k.
Proof. destruct r; simpl; [apply assign_lookup_target | done | done]. Qed.

(** A defined header returned by the service-level proxy-header function is
    in the composed headers with that value, unless the action-level
    function, the request id, the idempotency key or the auth provider set
    the same name: the pass-through copy does not replace it. *)
Lemma composeHeaders_service url ac sf k v h :
  opt_proxyHeaders options = ProxyFn sf →
  sf (ac_headers ac) "rest" !! k = Some v → v ≠ VUndef →
  match cfg_proxyHeaders config with
  | ProxyFn af => af (ac_headers ac) "rest" !! k = None
  | _ => True
  end →
  k ≠ "x-request-id" → k ≠ "idempotency-key" →
  auth_silent (authProvider config options (authParams serviceKey options ac)) k →
  outcome (composeHeaders E config serviceKey options url ac) = Resolve h →
  h !! k = Some v.
Proof.
  intros Hsf Hk Hv Haf Hrid Hidem Hauth Hh.
  destruct (composeHeaders_outcome url ac) as (st1 & st2 & H1 & H2 & Ho).
  rewrite Ho in Hh. injection Hh as <-.
  rewrite injectProxyHeaders_outcome in H1. injection H1 as <-.
  rewrite injectProxyHeaders_outcome in H2. injection H2 as <-.
  apply omit_undefined_lookup. split; [|done].
  rewrite assignAuth_silent, stampIdempotency_other, stampRequestId_other by done.
  apply passthrough_keeps; [|done].
  rewrite Hsf. simpl.
  destruct (cfg_proxyHeaders config) as [af|names|]; simpl.
  - rewrite assign_lookup_target by done. by apply assign_lookup_src.
  - by apply assign_lookup_src.
  - by apply assign_lookup_src.
Qed.

Lemma composeHeaders_pruned url ac h k :
  outcome (composeHeaders E config serviceKey options url ac) = Resolve h →
  h !! k ≠ Some VUndef.
Proof.
  intros Hh. destruct (composeHeaders_outcome url ac) as (st1 & st2 & _ & _ & Ho).
  rewrite Ho in Hh. injection Hh as <-. apply omit_undefined_defined.
Qed.
End Headers.

Section Reach.
Context (E : Collab).
Context (endpoints : option EndpointsConfig)
        (config : ApiServiceRestActionConfig)
        (serviceKey actionName : string)
        (options : GatewayApiOptions).

Abbreviation run := (action E endpoints config serviceKey actionName options).
Abbreviation pre := (prepare E endpoints config serviceKey actionName options).
Abbreviation fin := (finish E config serviceKey actionName options).
Abbreviation vfails := (validation_fails E config options).
Abbreviation chosen := (selectedEndpoint endpoints config).

(** A dispatch that issued a request passed validation and resolved its
    endpoint; the request is the one [prepare] set up, and the dispatch ends
    as [finish] does. *)
Lemma reach ac c rc :
  EvRequest c rc ∈ trace (run ac) →
  vfails (ac_args ac) = false ∧
  ∃ e h params p,
    chosen (ac_args ac) = Some e ∧
    endpoint_truthy (Some e) = true ∧
    outcome (composeHeaders E config serviceKey options
               (actionURL E config options e (ac_args ac)) ac) = Resolve h ∧
    outcome (produceParams config (ac_args ac) h) = Resolve params ∧
    outcome (selectClient config options ac e) = Resolve c ∧
    rc_headers rc = assign (getMetadata E) (headers_of params h) ∧
    c = p_client p ∧ rc = p_config E config p ∧
    trace (run ac) = trace (pre ac) ++ EvRequest c rc :: trace (fin ac p) ∧
    outcome (run ac) = outcome (fin ac p) ∧
    quiet (trace (pre ac)).
Proof.
  intros Hin. destruct (request_in_action _ _ _ _ _ _ _ _ _ Hin) as (p & Hp & -> & ->).
  pose proof (action_cases E endpoints config serviceKey actionName options ac) as Ha.
  pose proof (prepare_cases E endpoints config serviceKey actionName options ac) as Hc.
  rewrite Hp in Ha. destruct Ha as (Ht & Ho & Hq). cbv zeta in Hc.
  destruct (vfails (ac_args ac)); [congruence|]. split; [done|].
  destruct (chosen (ac_args ac)) as [e|]; [|congruence].
  destruct (endpoint_truthy (Some e)) eqn:Htruthy; [|congruence].
  destruct Hc as (h & params & rb & c & Hh & Hpar & Hc & Hp').
  rewrite Hp in Hp'. injection Hp' as Hpeq.
  exists e, h, params, p. subst p. repeat split; done.
Qed.

Lemma reach_counts ac c rc p :
  trace (run ac) = trace (pre ac) ++ EvRequest c rc :: trace (fin ac p) →
  quiet (trace (pre ac)) →
  count is_stats (trace (run ac)) = count is_stats (trace (fin ac p)) ∧
  count is_end (trace (run ac)) = count is_end (trace (fin ac p)) ∧
  count is_request (trace (run ac)) = 1%nat ∧
  last (trace (run ac)) = Some EvEnd.
Proof.
  intros Ht Hq.
  destruct (finish_summary E config serviceKey actionName options ac p)
    as (Hrq' & Hl & _).
  destruct (quiet_counts _ Hq) as (Hs & He & Hrq).
  rewrite Ht, !count_app, !count_cons, Hs, He, Hrq, Hrq'.
  repeat split. rewrite last_app, last_cons, Hl. done.
Qed.

Lemma reach_statuses ac c rc p :
  trace (run ac) = trace (pre ac) ++ EvRequest c rc :: trace (fin ac p) →
  quiet (trace (pre ac)) →
  statuses (trace (run ac)) = statuses (trace (fin ac p)).
Proof.
  intros Ht Hq. by rewrite Ht, statuses_app, statuses_cons, (quiet_statuses _ Hq).
Qed.

Lemma reach_stats_in ac c rc p e :
  trace (run ac) = trace (pre ac) ++ EvRequest c rc :: trace (fin ac p) →
  quiet (trace (pre ac)) →
  e ∈ trace (run ac) → is_stats e = true → e ∈ trace (fin ac p).
Proof.
  intros Ht Hq Hin He. rewrite Ht, elem_of_app, elem_of_cons in Hin.
  destruct Hin as [Hin|[->|Hin]]; [|done|done].
  apply (quiet_plain _ _ Hq) in Hin. by rewrite stats_not_plain in Hin.
Qed.

Lemma reach_stats ac c rc p status e :
  trace (run ac) = trace (pre ac) ++ EvRequest c rc :: trace (fin ac p) →
  quiet (trace (pre ac)) →
  reported (opt_sendStats options) status (trace (fin ac p)) →
  e ∈ trace (run ac) → is_stats e = true →
  via_sink e = opt_sendStats options ∧ stats_status e = Some status.
Proof.
  intros Ht Hq Hr Hin He. rewrite Ht, elem_of_app, elem_of_cons in Hin.
  destruct Hin as [Hin|[->|Hin]]; [|done|].
  - apply (quiet_plain _ _ Hq) in Hin. by rewrite stats_not_plain in Hin.
  - by apply (reported_stats _ _ _ _ Hr).
Qed.

Lemma transmitted_request t h :
  h ∈ transmitted t → ∃ c rc, EvRequest c rc ∈ t ∧ h = rc_headers rc.
Proof.
  unfold transmitted. rewrite list_elem_of_omap. intros (e & Hin & He).
  destruct e; try done. injection He as <-. eauto.
Qed.

Lemma transformData_throws args r hook e :
  cfg_transformResponseData config = Some hook →
  hook (resp_data r) args (resp_headers r) = Throws e →
  outcome (transformData E config args r) = Resolve (resp_data r) ∧
  trace (transformData E config args r) =
    [EvCall CTransformResponseData;
     EvHandleError e "Transform response data failed"].
Proof.
  intros Hh He. unfold transformData.
  by rewrite Hh, outcome_bind, trace_bind, He.
Qed.
End Reach.

Section Outcomes.
Context (E : Collab).
Context (endpoints : option EndpointsConfig)
        (config : ApiServiceRestActionConfig)
        (serviceKey actionName : string)
        (options : GatewayApiOptions).

Abbreviation run := (action E endpoints config serviceKey actionName options).
Abbreviation pre := (prepare E endpoints config serviceKey actionName options).
Abbreviation fin := (finish E config serviceKey actionName options).
Abbreviation vfails := (validation_fails E config options).
Abbreviation chosen := (selectedEndpoint endpoints config).

Lemma early_action ac v :
  outcome (pre ac) = Reject v →
  outcome (run ac) = Reject v ∧ early (trace (run ac)).
Proof.
  intros Hp.
  pose proof (action_cases E endpoints config serviceKey actionName options ac) as Ha.
  rewrite Hp in Ha. destruct Ha as (-> & Ho & He). done.
Qed.

Lemma validation_failure ac :
  vfails (ac_args ac) = true →
  outcome (run ac) =
    Reject (invalidParamsRejection
              (validateArgs E (ac_args ac) (validationSchema config options)) ∅) ∧
  early (trace (run ac)).
Proof.
  intros Hv. apply early_action.
  pose proof (prepare_cases E endpoints config serviceKey actionName options ac) as Hc.
  cbv zeta in Hc. by rewrite Hv in Hc.
Qed.

Lemma endpoint_failure ac :
  vfails (ac_args ac) = false →
  endpoint_truthy (chosen (ac_args ac)) = false →
  outcome (run ac) = Reject (endpointNotFoundRejection serviceKey) ∧
  early (trace (run ac)).
Proof.
  intros Hv He. apply early_action.
  pose proof (prepare_cases E endpoints config serviceKey actionName options ac) as Hc.
  cbv zeta in Hc. rewrite Hv in Hc.
  destruct (chosen (ac_args ac)) as [e|]; [|done]. by rewrite He in Hc.
Qed.

Lemma transport_reached ac :
  vfails (ac_args ac) = false →
  endpoint_truthy (chosen (ac_args ac)) = true →
  ∃ p, outcome (pre ac) = Resolve p ∧
    trace (run ac) =
      trace (pre ac) ++
      EvRequest (p_client p) (p_config E config p) :: trace (fin ac p) ∧
    outcome (run ac) = outcome (fin ac p) ∧
    quiet (trace (pre ac)).
Proof.
  intros Hv He.
  pose proof (prepare_cases E endpoints config serviceKey actionName options ac) as Hc.
  pose proof (action_cases E endpoints config serviceKey actionName options ac) as Ha.
  cbv zeta in Hc. rewrite Hv in Hc.
  destruct (chosen (ac_args ac)) as [e|]; [|done]. rewrite He in Hc.
  destruct Hc as (h & params & rb & c & _ & _ & _ & Hp).
  rewrite Hp in Ha. eauto.
Qed.

(** C1 (amended). A dispatch that ends in validation failure or in
    endpoint-resolution failure emits no stats; its span is closed once, as
    the last thing it does. A dispatch that gets to the transport call emits
    stats, on the custom sink when one is configured and on the tracing
    context otherwise, and the last thing it does is closing the span. It
    emits stats exactly once and closes the span exactly once when the
    transport call fails, and when it succeeds and each call that follows it
    inside the [try] (stats, completion log, closing of the span, and the
    helpers that clean the headers for them) returns. When such a call
    throws, the [catch] block runs as for a transport failure: it emits
    stats, a second time unless the throw came before the first emission,
    and it closes the span, a second time when it was the closing that
    threw. Nothing guards the calls of the [catch] block; they are taken to
    return. *)
Theorem stats_emissions_of_a_dispatch ac :
  let t := trace (run ac) in
  if vfails (ac_args ac)
     || negb (endpoint_truthy (chosen (ac_args ac)))
  then
    count is_request t = 0%nat ∧ count is_stats t = 0%nat ∧
    count is_end t = 1%nat ∧ last t = Some EvEnd
  else
    count is_request t = 1%nat ∧ last t = Some EvEnd ∧
    (∀ e, e ∈ t → is_stats e = true → via_sink e = opt_sendStats options) ∧
    ∃ c rc,
      EvRequest c rc ∈ t ∧
      match request E c rc, stops_at E options with
      | Returns _, Some (g, _) =>
          count is_stats t = (if before_stats g then 1 else 2)%nat ∧
          count is_end t = (if closes_span g then 2 else 1)%nat
      | _, _ => count is_stats t = 1%nat ∧ count is_end t = 1%nat
      end.
Proof.
  intros t. subst t.
  destruct (vfails (ac_args ac)) eqn:Hv; simpl.
  { destruct (validation_failure ac Hv) as [_ He].
    destruct (early_counts _ He) as (? & ? & ? & ?). done. }
  destruct (endpoint_truthy (chosen (ac_args ac))) eqn:He; simpl.
  - destruct (transport_reached ac Hv He) as (p & Hp & Ht & Ho & Hq).
    destruct (reach_counts E endpoints config serviceKey actionName options
                ac _ _ p Ht Hq) as (Hs & Hend & Hrq & Hl).
    destruct (finish_summary E config serviceKey actionName options ac p)
      as (_ & _ & Hvia & Hn).
    split; [done|]. split; [done|]. split.
    { intros e Hin Hse. apply Hvia; [|done].
      by apply (reach_stats_in E endpoints config serviceKey actionName options
                  ac _ _ p e Ht Hq). }
    exists (p_client p), (p_config E config p). split.
    { rewrite Ht. apply elem_of_app. right. apply list_elem_of_here. }
    rewrite Hs, Hend. exact Hn.
  - destruct (endpoint_failure ac Hv He) as [_ Hearly].
    destruct (early_counts _ Hearly) as (? & ? & ? & ?). done.
Qed.

(** C7 (amended). For every call that passes validation and whose endpoint
    cannot be resolved, the dispatch rejects with status 400 and code
    ENDPOINT_NOT_FOUND, the span is closed, and no transport call occurs. The
    endpoint cannot be resolved when what lines 117-123 leave in
    [endpointData] is falsy: the selector function returns nothing (or an
    empty string); or there is no table; or the table has nothing under the
    name looked up, which is the configured key, else [endpoint]. A look-up
    by a configured key also finds what the table inherits from
    [Object.prototype]: under such a key (constructor, toString, ...) the
    endpoint counts as resolved ([selectedEndpoint], [table_get]). *)
Theorem unresolved_endpoint_rejects ac :
  vfails (ac_args ac) = false →
  endpoint_truthy (chosen (ac_args ac)) = false →
  let t := trace (run ac) in
  ∃ v err,
    outcome (run ac) = Reject v ∧ v !! "error" = Some (VObj err) ∧
    err !! "status" = Some (VNum 400) ∧
    err !! "code" = Some (VStr "ENDPOINT_NOT_FOUND") ∧
    count is_end t = 1%nat ∧ last t = Some EvEnd ∧ count is_request t = 0%nat.
Proof.
  intros Hv He t. destruct (endpoint_failure ac Hv He) as [Ho Hearly].
  destruct (early_counts _ Hearly) as (? & ? & ? & ?).
  eexists _, _. split; [exact Ho|]. split; [reflexivity|]. done.
Qed.

Lemma prepare_trace_validation ac :
  truthy (validationSchema config options) = true →
  ∃ name tags rest,
    trace (pre ac) =
      EvCreate name tags :: EvLog "Initiating request" VUndef ::
      EvCall CValidateArgs :: rest ∧
    (truthy (validateArgs E (ac_args ac) (validationSchema config options)) = true →
     rest = [EvLog "Invalid params"
               (VObj (object [("invalidParams",
                  validateArgs E (ac_args ac) (validationSchema config options))]));
             EvEnd]).
Proof.
  intros Hs. unfold prepare. do 3 rewrite trace_bind.
  cbn [trace outcome emit fst snd app]. rewrite validation_outcome.
  unfold validation_fails, validation. rewrite Hs, trace_bind.
  cbn [trace outcome emit fst snd app andb].
  destruct (truthy (validateArgs E (ac_args ac) (validationSchema config options))).
  - eexists _, _, _. split; [reflexivity|]. done.
  - eexists _, _, _. split; [reflexivity|]. done.
Qed.
End Outcomes.

Section Failures.
Context (E : Collab).
Context (endpoints : option EndpointsConfig)
        (config : ApiServiceRestActionConfig)
        (serviceKey actionName : string)
        (options : GatewayApiOptions).

Abbreviation run := (action E endpoints config serviceKey actionName options).
Abbreviation pre := (prepare E endpoints config serviceKey actionName options).
Abbreviation fin := (finish E config serviceKey actionName options).
Abbreviation vfails := (validation_fails E config options).
Abbreviation chosen := (selectedEndpoint endpoints config).

(** C8. When the validator reports invalid fields the dispatch rejects with
    status 400, code INVALID_PARAMS and the validator's report as details,
    and the span is closed exactly once. The validator is the first
    collaborator called after the span is opened: nothing of endpoint
    resolution, header assembly or request building comes before it, and
    nothing of them happens at all when it reports invalid fields. *)
Theorem invalid_params_reject ac :
  let schema := validationSchema config options in
  let invalidParams := validateArgs E (ac_args ac) schema in
  let t := trace (run ac) in
  truthy schema = true →
  (∃ name tags rest,
     t = EvCreate name tags :: EvLog "Initiating request" VUndef ::
         EvCall CValidateArgs :: rest) ∧
  (truthy invalidParams = true →
   ∃ name tags v err details,
     outcome (run ac) = Reject v ∧
     v !! "error" = Some (VObj err) ∧
     err !! "status" = Some (VNum 400) ∧
     err !! "code" = Some (VStr "INVALID_PARAMS") ∧
     err !! "details" = Some (VObj details) ∧
     details !! "description" = Some invalidParams ∧
     t = [EvCreate name tags; EvLog "Initiating request" VUndef;
          EvCall CValidateArgs;
          EvLog "Invalid params" (VObj (object [("invalidParams", invalidParams)]));
          EvEnd] ∧
     count is_end t = 1%nat).
Proof.
  intros schema invalidParams t Hs.
  destruct (prepare_trace_validation E endpoints config serviceKey actionName
              options ac Hs) as (name & tags & rest & Ht & Hrest).
  pose proof (action_cases E endpoints config serviceKey actionName options ac) as Ha.
  split.
  - subst t. destruct (outcome (pre ac)) as [p|v].
    + destruct Ha as (-> & _). rewrite Ht. eexists _, _, _. reflexivity.
    + destruct Ha as (-> & _). rewrite Ht. eexists _, _, _. reflexivity.
  - intros Hi.
    assert (vfails (ac_args ac) = true) as Hv.
    { unfold validation_fails. fold schema. by rewrite Hs. }
    destruct (validation_failure E endpoints config serviceKey actionName options
                ac Hv) as [Ho He].
    destruct (early_counts _ He) as (_ & Hend & _).
    rewrite Ho in Ha.
    assert (outcome (pre ac) = Reject
              (invalidParamsRejection invalidParams ∅)) as Hp.
    { pose proof (prepare_cases E endpoints config serviceKey actionName options ac) as Hc.
      cbv zeta in Hc. by rewrite Hv in Hc. }
    rewrite Hp in Ha. destruct Ha as (Hta & _).
    exists name, tags. eexists _, _, _. split; [exact Ho|].
    do 4 (split; [reflexivity|]). split; [by simplify_map_eq|].
    split; [|done]. subst t. rewrite Hta, Ht, (Hrest Hi). done.
Qed.


(** C5 (amended). On a transport failure the resolved status is the
    normalized error's status when that is truthy, else the raw thrown
    error's status when it has one, else 500. It is the status the stats
    emission reports. The rejection's error object carries the status of the
    normalized error, which is the resolved status when the normalized error
    has a truthy one. *)
Theorem transport_failure_status ac c rc error :
  EvRequest c rc ∈ trace (run ac) →
  request E c rc = Throws error →
  ∃ parsed v,
    outcome (normalizeError E config (ac_args ac) error
               (lang_of E (ac_headers ac))) = Resolve parsed ∧
    let resolved := responseStatus parsed error in
    resolved =
      (if truthy (parsedStatus parsed) then parsedStatus parsed
       else match get_path error "status" with
            | VUndef => VNum 500
            | status => status
            end) ∧
    count is_stats (trace (run ac)) = 1%nat ∧
    (∀ e, e ∈ trace (run ac) → is_stats e = true →
          stats_status e = Some resolved) ∧
    outcome (run ac) = Reject v ∧
    get_path (get v "error") "status" = parsedStatus parsed ∧
    (truthy (parsedStatus parsed) = true →
     get_path (get v "error") "status" = resolved).
Proof.
  intros Hin Hreq.
  destruct (reach E endpoints config serviceKey actionName options ac c rc Hin)
    as (_ & e & h & params & p & _ & _ & _ & _ & _ & _ & -> & -> & Ht & Ho & Hq).
  pose proof (finish_spec E config serviceKey actionName options ac p) as Hf.
  rewrite Hreq in Hf. destruct Hf as (parsed & Hn & Hfo & Hr).
  destruct (reach_counts E endpoints config serviceKey actionName options
              ac _ _ p Ht Hq) as (Hs & _).
  destruct (reported_counts _ _ _ Hr) as (Hs' & _). rewrite Hs' in Hs.
  assert (get_path (get (failure parsed (ac_requestId ac) (p_debugHeaders p))
                      "error") "status" = parsedStatus parsed) as Hstatus.
  { unfold failure, object, get_path, get. simpl.
    rewrite lookup_insert_eq. simpl. rewrite lookup_insert_ne by done.
    by destruct parsed. }
  exists parsed, (failure parsed (ac_requestId ac) (p_debugHeaders p)).
  split; [done|]. cbv zeta. split; [reflexivity|]. split; [done|].
  split.
  { intros ev Hev Hse.
    by destruct (reach_stats E endpoints config serviceKey actionName options
                   ac _ _ p _ ev Ht Hq Hr Hev Hse). }
  split; [by rewrite Ho|]. split; [done|].
  intros Htr. rewrite Hstatus. unfold responseStatus, js_or. by rewrite Htr.
Qed.
End Failures.

Section Transmission.
Context (E : Collab).
Context (endpoints : option EndpointsConfig)
        (config : ApiServiceRestActionConfig)
        (serviceKey actionName : string)
        (options : GatewayApiOptions).

Abbreviation run := (action E endpoints config serviceKey actionName options).

Lemma produceParams_outcome args h params :
  outcome (produceParams config args h) = Resolve params →
  params = None ∨ ∃ f, cfg_params config = Some f ∧ f args h = Returns params.
Proof.
  unfold produceParams. destruct (cfg_params config) as [f|].
  - rewrite outcome_bind. cbn [outcome emit snd].
    destruct (f args h) as [p|e] eqn:Hf.
    + intros [= <-]. right. eauto.
    + rewrite outcome_bind. intros [= <-]. by left.
  - intros [= <-]. by left.
Qed.

Lemma headers_of_no_override args h params :
  no_headers_override config →
  outcome (produceParams config args h) = Resolve params →
  headers_of params h = h.
Proof.
  intros Hno Hp. destruct (produceParams_outcome _ _ _ Hp) as [->|(f & Hf & Hr)];
    [done|].
  destruct params as [po|]; [|done]. simpl. by rewrite (Hno f args h po Hf Hr).
Qed.




(** C10 (amended). When the transport call returns, the stats emission of
    the success path reports status 200, whatever status the response
    carries. It is the only emission of the dispatch when each call that
    follows the transport call inside the [try] returns. When one of them
    throws, the [catch] block emits stats with the resolved status of what
    was thrown: after the emission that reported 200, or, when the throw
    came before the stats sink was called, instead of it (the calls of the
    [catch] block being taken to return). *)
Theorem success_reports_200 ac c rc r :
  EvRequest c rc ∈ trace (run ac) →
  request E c rc = Returns r →
  match stops_at E options with
  | None => statuses (trace (run ac)) = [Some (VNum 200)]
  | Some (g, error) =>
      ∃ parsed,
        outcome (normalizeError E config (ac_args ac) error
                   (lang_of E (ac_headers ac))) = Resolve parsed ∧
        statuses (trace (run ac)) =
          (if before_stats g then [] else [Some (VNum 200)]) ++
          [Some (responseStatus parsed error)]
  end.
Proof.
  intros Hin Hreq.
  destruct (reach E endpoints config serviceKey actionName options ac c rc Hin)
    as (_ & ep & h & params & p & _ & _ & _ & _ & _ & _ & -> & -> & Ht & Ho & Hq).
  pose proof (finish_spec E config serviceKey actionName options ac p) as Hf.
  rewrite Hreq in Hf. destruct Hf as (data & _ & Hf).
  rewrite (reach_statuses E endpoints config serviceKey actionName options
             ac _ _ p Ht Hq).
  destruct (stops_at E options) as [[g error]|].
  - destruct Hf as (parsed & t1 & t2 & Hn & _ & -> & H1 & H2).
    exists parsed. split; [done|].
    by rewrite statuses_app, (attempted_statuses _ _ _ H1),
      (reported_statuses _ _ _ H2).
  - destruct Hf as [_ Hr]. by apply (reported_statuses _ _ _ Hr).
Qed.

(** Every request is issued on a transport instance built inside the
    dispatch, with the timeout taken from the call, else the action, else
    the endpoint, else the base timeout of the action. *)
Lemma request_on_call_instance ac c rc :
  EvRequest c rc ∈ trace (run ac) →
  client_site c = CallSite ∧
  ∃ e, selectedEndpoint endpoints config (ac_args ac) = Some e ∧
    client_timeout c =
      coalesce (ac_timeout ac)
        (coalesce (cfg_timeout config)
           (coalesce (get (endpointAxiosConfig e) "timeout")
              (base_timeout config options))).
Proof.
  intros Hin.
  destruct (reach E endpoints config serviceKey actionName options ac c rc Hin)
    as (_ & e & h & params & p & He & _ & _ & _ & Hc & _).
  destruct (selectClient_spec config options ac e) as (c' & Hc' & Hsite & Htime & _).
  rewrite Hc in Hc'. injection Hc' as <-. split; [done|]. by exists e.
Qed.
End Transmission.

(** ** The dispatch, phase by phase *)

Section Anatomy.
Context (E : Collab).
Context (endpoints : option EndpointsConfig)
        (config : ApiServiceRestActionConfig)
        (serviceKey actionName : string)
        (options : GatewayApiOptions).

Abbreviation run := (action E endpoints config serviceKey actionName options).
Abbreviation pre := (prepare E endpoints config serviceKey actionName options).
Abbreviation fin := (finish E config serviceKey actionName options).
Abbreviation vfails := (validation_fails E config options).
Abbreviation chosen := (selectedEndpoint endpoints config).

Lemma trace_bind_resolve {A B} (m : M A) (f : A → M B) a :
  outcome m = Resolve a → trace (m ≫= f) = trace m ++ trace (f a).
Proof. intros H. by rewrite trace_bind, H. Qed.

Lemma outcome_bind_resolve {A B} (m : M A) (f : A → M B) a :
  outcome m = Resolve a → outcome (m ≫= f) = outcome (f a).
Proof. intros H. by rewrite outcome_bind, H. Qed.

(** What a preparation that gets through has computed, and what it did on
    the way. *)
Lemma prepare_resolved ac p :
  outcome (pre ac) = Resolve p →
  vfails (ac_args ac) = false ∧
  ∃ e h params rb name tags,
    chosen (ac_args ac) = Some e ∧ endpoint_truthy (Some e) = true ∧
    let url := actionURL E config options e (ac_args ac) in
    outcome (composeHeaders E config serviceKey options url ac) = Resolve h ∧
    outcome (produceParams config (ac_args ac) h) = Resolve params ∧
    outcome (bodyPreview E (body_of params)) = Resolve rb ∧
    outcome (selectClient config options ac e) = Resolve (p_client p) ∧
    p = {| p_url := url; p_body := body_of params;
           p_query := query_of params;
           p_headers := headers_of params h;
           p_debugHeaders :=
             buildDebugHeaders E config url ac (query_of params)
               (headers_of params h) rb;
           p_client := p_client p |} ∧
    trace (pre ac) =
      [EvCreate name tags; EvLog "Initiating request" VUndef] ++
      trace (validation E config options (ac_args ac) ∅) ++
      trace (resolveEndpoint endpoints config serviceKey actionName options
               (ac_args ac)) ++
      trace (composeHeaders E config serviceKey options url ac) ++
      trace (produceParams config (ac_args ac) h) ++
      trace (bodyPreview E (body_of params)) ++
      trace (selectClient config options ac e) ++
      [EvLog "Starting request"
         (VObj (object [("debugHeaders",
                         VObj (sanitizeDebugHeaders E (p_debugHeaders p)))]))].
Proof.
  intros Hp.
  pose proof (validation_outcome E config options (ac_args ac) ∅) as Hv.
  pose proof (resolveEndpoint_outcome endpoints config serviceKey actionName
                options (ac_args ac)) as Hr.
  revert Hp. unfold prepare.
  rewrite outcome_bind. cbn [outcome emit snd].
  rewrite outcome_bind. cbn [outcome emit snd].
  rewrite outcome_bind, Hv.
  destruct (vfails (ac_args ac)); [done|]. rewrite outcome_bind, Hr.
  destruct (chosen (ac_args ac)) as [e|]; [|done].
  destruct (endpoint_truthy (Some e)) eqn:He; [|done].
  set (url := actionURL E config options e (ac_args ac)).
  destruct (calm_composeHeaders E config serviceKey options url ac) as [_ [h Hh]].
  destruct (calm_produceParams config (ac_args ac) h) as [_ [params Hpar]].
  destruct (calm_bodyPreview E (body_of params)) as [_ [rb Hb]].
  destruct (selectClient_spec config options ac e) as (c & Hc & _).
  rewrite outcome_bind, Hh, outcome_bind, Hpar, outcome_bind, Hb, outcome_bind, Hc.
  cbn [outcome emit snd]. rewrite outcome_bind. cbn [outcome emit snd mret M_ret].
  intros [= <-]. split; [done|].
  exists e, h, params, rb. eexists _, _.
  do 2 (split; [done|]). cbv zeta. fold url.
  do 5 (split; [done|]).
  rewrite trace_bind. cbn [trace outcome emit fst snd].
  rewrite trace_bind. cbn [trace outcome emit fst snd].
  rewrite (trace_bind_resolve _ _ tt) by (by rewrite Hv).
  rewrite (trace_bind_resolve _ _ e) by (by rewrite Hr).
  fold url.
  rewrite (trace_bind_resolve _ _ h Hh), (trace_bind_resolve _ _ params Hpar),
    (trace_bind_resolve _ _ rb Hb), (trace_bind_resolve _ _ c Hc).
  rewrite trace_bind. cbn [trace outcome emit fst snd mret M_ret].
  rewrite app_nil_r. reflexivity.
Qed.

(** What the [catch] block does, event by event. *)
Lemma onFailure_trace t url ac rd h dh error :
  ∃ parsed,
    outcome (normalizeError E config (ac_args ac) error
               (lang_of E (ac_headers ac))) = Resolve parsed ∧
    trace (onFailure E config serviceKey options t url ac rd h dh error) =
      trace (normalizeError E config (ac_args ac) error
               (lang_of E (ac_headers ac))) ++
      trace (emitStats E options
               (<["requestTime" := VNum (t - now_start E)]> rd)
               (get_path (get_path error "response") "data")
               (responseStatus parsed error) h dh) ++
      [EvLogError "Request failed" error
         (VObj (object [
            ("actionURL", VStr url);
            ("parsedError",
               match parsed with Some o => VObj o | None => VUndef end);
            ("serviceName", VStr (serviceName serviceKey options));
            ("debugHeaders", VObj (sanitizeDebugHeaders E dh))]));
       EvEnd].
Proof.
  destruct (calm_normalizeError E config (ac_args ac) error
              (lang_of E (ac_headers ac))) as [_ [parsed Hn]].
  exists parsed. split; [done|]. rewrite onFailure_normalize.
  destruct (emitStats_spec E options
              (<["requestTime" := VNum (t - now_start E)]> rd)
              (get_path (get_path error "response") "data")
              (responseStatus parsed error) h dh)
    as (l & e & _ & _ & _ & _ & _ & Ho).
  rewrite (trace_bind_resolve _ _ parsed Hn), (trace_bind_resolve _ _ tt Ho).
  reflexivity.
Qed.

(** What follows the transport call, event by event. *)
Lemma finish_trace ac p :
  let rd := requestData E config serviceKey actionName options (p_url p) ac in
  match request E (p_client p) (p_config E config p) with
  | Returns r =>
      ∃ data,
        outcome (transformData E config (ac_args ac) r) = Resolve data ∧
        match stops_at E options with
        | None =>
            trace (fin ac p) =
              trace (transformData E config (ac_args ac) r) ++
              trace (emitStats E options
                       (<["requestTime" := VNum (now_end E - now_start E)]> rd)
                       data (VNum 200) (p_headers p) (p_debugHeaders p)) ++
              [EvLog "Request completed"
                 (VObj (object [("debugHeaders",
                         VObj (sanitizeDebugHeaders E (p_debugHeaders p)))]));
               EvEnd]
        | Some (g, error) =>
            trace (fin ac p) =
              trace (onSuccess E config options ac rd (p_headers p)
                       (p_debugHeaders p) r) ++
              trace (onFailure E config serviceKey options (now_caught E)
                       (p_url p) ac rd (p_headers p) (p_debugHeaders p) error)
        end
  | Throws error =>
      trace (fin ac p) =
        trace (onFailure E config serviceKey options (now_end E)
                 (p_url p) ac rd (p_headers p) (p_debugHeaders p) error)
  end.
Proof.
  intros rd. unfold finish, settle. fold rd.
  destruct (request E _ _) as [r|error]; [|done].
  destruct (onSuccess_spec E config options ac rd (p_headers p)
              (p_debugHeaders p) r) as (data & Hd & Hs).
  exists data. split; [done|].
  destruct (stops_at E options) as [[g error]|] eqn:Hstop.
  - destruct Hs as [Ho _]. by rewrite (trace_bind_resolve _ _ _ Ho).
  - destruct Hs as [Ho _]. rewrite (trace_bind_resolve _ _ _ Ho).
    cbn [trace mret M_ret fst]. rewrite app_nil_r.
    rewrite (onSuccess_returns E config options ac rd _ _ r Hstop).
    destruct (emitStats_spec E options
                (<["requestTime" := VNum (now_end E - now_start E)]> rd)
                data (VNum 200) (p_headers p) (p_debugHeaders p))
      as (l & e & _ & _ & _ & _ & _ & Hoe).
    rewrite (trace_bind_resolve _ _ data Hd), (trace_bind_resolve _ _ tt Hoe).
    reflexivity.
Qed.

(** What the dispatch hands to its caller as debug headers once the
    transport call was made: the ones built before the call. *)
Lemma finish_debug ac p :
  debug_of (outcome (fin ac p)) = Some (p_debugHeaders p).
Proof.
  destruct (outcome (fin ac p)) as [res|v] eqn:Ho.
  - pose proof (finish_spec E config serviceKey actionName options ac p) as Hf.
    destruct (request E _ _) as [r|error].
    + destruct Hf as (data & _ & Hf).
      destruct (stops_at E options) as [[g error]|].
      * destruct Hf as (parsed & t1 & t2 & _ & Hfo & _). congruence.
      * destruct Hf as [Hfo _]. rewrite Hfo in Ho. by injection Ho as <-.
    + destruct Hf as (parsed & _ & Hfo & _). congruence.
  - simpl.
    by rewrite (finish_rejects E config serviceKey actionName options ac p v Ho).
Qed.

(** The request a dispatch issued, with everything it was built from. *)
Lemma request_anatomy ac c rc :
  EvRequest c rc ∈ trace (run ac) →
  ∃ p, outcome (pre ac) = Resolve p ∧ c = p_client p ∧
       rc = p_config E config p ∧
       trace (run ac) = trace (pre ac) ++ EvRequest c rc :: trace (fin ac p) ∧
       outcome (run ac) = outcome (fin ac p).
Proof.
  intros Hin.
  destruct (request_in_action E endpoints config serviceKey actionName options
              ac c rc Hin) as (p & Hp & -> & ->).
  pose proof (action_cases E endpoints config serviceKey actionName options ac) as Ha.
  rewrite Hp in Ha. destruct Ha as (Ht & Ho & _). by exists p.
Qed.

(** A dispatch that passes validation and resolves its endpoint issues a
    request. *)
Lemma request_issued ac :
  vfails (ac_args ac) = false →
  endpoint_truthy (chosen (ac_args ac)) = true →
  ∃ c rc, EvRequest c rc ∈ trace (run ac).
Proof.
  intros Hv He.
  destruct (transport_reached E endpoints config serviceKey actionName options
              ac Hv He) as (p & _ & Ht & _).
  exists (p_client p), (p_config E config p). rewrite Ht. set_solver.
Qed.
(** Such a dispatch hands a header map to the transport. *)
Lemma transmitted_issued ac :
  vfails (ac_args ac) = false →
  endpoint_truthy (chosen (ac_args ac)) = true →
  ∃ h, h ∈ transmitted (trace (run ac)).
Proof.
  intros Hv He. destruct (request_issued ac Hv He) as (c & rc & Hin).
  exists (rc_headers rc). unfold transmitted. apply list_elem_of_omap.
  by exists (EvRequest c rc).
Qed.

(** A dispatch that issued a request hands debug headers to its caller. *)
Lemma debug_of_issued ac c rc :
  EvRequest c rc ∈ trace (run ac) →
  ∃ dh, debug_of (outcome (run ac)) = Some dh.
Proof.
  intros Hin. destruct (request_anatomy ac c rc Hin) as (p & _ & -> & -> & _ & ->).
  exists (p_debugHeaders p). apply finish_debug.
Qed.

(** A dispatch whose transport call returned resolves, when nothing that
    follows the call inside the [try] throws. *)
Lemma returns_resolves ac c rc resp :
  EvRequest c rc ∈ trace (run ac) →
  request E c rc = Returns resp →
  stops_at E options = None →
  ∃ data dh,
    outcome (transformData E config (ac_args ac) resp) = Resolve data ∧
    outcome (run ac) = Resolve {| responseData := data; debugHeaders := dh |}.
Proof.
  intros Hin Hreq Hstop.
  destruct (request_anatomy ac c rc Hin) as (p & _ & -> & -> & _ & ->).
  pose proof (finish_spec E config serviceKey actionName options ac p) as Hf.
  rewrite Hreq, Hstop in Hf. destruct Hf as (data & Hd & -> & _).
  by exists data, (p_debugHeaders p).
Qed.

(** A dispatch whose transport call threw rejects. *)
Lemma transport_failure_rejects ac c rc error :
  EvRequest c rc ∈ trace (run ac) →
  request E c rc = Throws error →
  ∃ v, outcome (run ac) = Reject v.
Proof.
  intros Hin Hreq.
  destruct (request_anatomy ac c rc Hin) as (p & _ & -> & -> & _ & ->).
  pose proof (finish_spec E config serviceKey actionName options ac p) as Hf.
  rewrite Hreq in Hf. destruct Hf as (parsed & _ & -> & _). by eexists.
Qed.
End Anatomy.

(** ** The claims on sample dispatches *)

Import Sample.

Ltac find_event :=
  repeat first [ apply list_elem_of_here | apply list_elem_of_further ].

(** C1, counterexample: a dispatch that ends in validation failure emits no
    stats at all. *)
Lemma validation_failure_emits_no_stats :
  let t := trace (createRestAction (collab (ok 200) parse_status) endpoints
                    (config schema None None) "svc" "act"
                    (options AuthUndefined) (call bad_args)) in
  validation_fails (collab (ok 200) parse_status) (config schema None None)
    (options AuthUndefined) bad_args = true ∧
  count is_stats t = 0%nat ∧ count is_stats t ≠ 1%nat.
Proof. vm_compute. repeat split; discriminate. Qed.



(** C3, at a call without a timeout of its own on a plain endpoint: the
    request goes out on an instance built inside the dispatch, not on the
    default instance built at set-up. *)
Theorem default_transport_bypassed :
  let E := collab (ok 200) parse_status in
  let t := trace (createRestAction E endpoints plain "svc" "act"
                    (options AuthUndefined) (call good_args)) in
  ac_timeout (call good_args) = VUndef ∧
  selectedEndpoint endpoints plain good_args =
    Some (PlainEndpoint "http://backend:8080") ∧
  endpointAxiosConfig (PlainEndpoint "http://backend:8080") = ∅ ∧
  client_site (defaultAxiosClient plain (options AuthUndefined)) = SetupSite ∧
  map client_site (clients_used t) = [CallSite] ∧
  count (λ e, match e with EvCall CGetAxiosClient => true | _ => false end) t
    = 1%nat.
Proof. vm_compute. repeat split. Qed.



(** C5, witness: a 503 from the transport, normalized by the fallback
    parser. *)
Lemma transport_failure_status_witness :
  let t := trace (createRestAction (collab (fails unavailable) parse_status)
                    endpoints plain "svc" "act" (options AuthUndefined)
                    (call good_args)) in
  (∃ c rc, EvRequest c rc ∈ t) ∧
  ∀ e, e ∈ t → is_stats e = true → stats_status e = Some (VNum 503).
Proof.
  intros t.
  destruct (request_issued (collab (fails unavailable) parse_status)
              endpoints plain "svc" "act" (options AuthUndefined)
              (call good_args) eq_refl eq_refl) as (c & rc & Hin).
  split; [by exists c, rc|].
  destruct (transport_failure_status (collab (fails unavailable) parse_status)
              endpoints plain "svc" "act" (options AuthUndefined)
              (call good_args) c rc unavailable Hin eq_refl)
    as (parsed & v & Hn & _ & _ & Hstats & _).
  vm_compute in Hn. injection Hn as <-. exact Hstats.
Defined.

(** C5, counterexample: the fallback parser throws on a raw error without
    status; the resolved status, reported to stats, is 500, and the caller's
    error object has no status. *)
Lemma resolved_status_not_observed :
  let m := createRestAction (collab (fails (VObj ∅)) parse_throws)
             endpoints plain "svc" "act" (options AuthUndefined)
             (call good_args) in
  map stats_status (filter (λ e, is_stats e = true) (trace m)) =
    [Some (VNum 500)] ∧
  ∃ v, outcome m = Reject v ∧ get_path (get v "error") "status" = VUndef.
Proof. split; [vm_compute; reflexivity|]. eexists. vm_compute. split; reflexivity. Qed.



(** C7, witness: no schema, no endpoint table. *)
Lemma unresolved_endpoint_rejects_witness :
  ∃ v err,
    outcome (createRestAction (collab (ok 200) parse_status) None plain
               "svc" "act" (options AuthUndefined) (call good_args)) = Reject v ∧
    v !! "error" = Some (VObj err) ∧
    err !! "code" = Some (VStr "ENDPOINT_NOT_FOUND").
Proof.
  destruct (unresolved_endpoint_rejects (collab (ok 200) parse_status) None
              plain "svc" "act" (options AuthUndefined) (call good_args)
              eq_refl eq_refl)
    as (v & err & Ho & Herr & _ & Hcode & _).
  exists v, err. repeat split; assumption.
Defined.

(** C7, counterexample: the endpoint cannot be resolved and the arguments are
    invalid; the dispatch rejects with INVALID_PARAMS, not with
    ENDPOINT_NOT_FOUND. *)
Lemma invalid_params_precede_endpoint_not_found :
  endpoint_truthy (selectedEndpoint None (config schema None None) bad_args)
    = false ∧
  ∃ v,
    outcome (createRestAction (collab (ok 200) parse_status) None
               (config schema None None) "svc" "act" (options AuthUndefined)
               (call bad_args)) = Reject v ∧
    get_path (get v "error") "code" = VStr "INVALID_PARAMS".
Proof. split; [reflexivity|]. eexists. vm_compute. split; reflexivity. Qed.

(** C8, witness. *)
Lemma invalid_params_reject_witness :
  ∃ v err,
    outcome (createRestAction (collab (ok 200) parse_status) endpoints
               (config schema None None) "svc" "act" (options AuthUndefined)
               (call bad_args)) = Reject v ∧
    v !! "error" = Some (VObj err) ∧
    err !! "code" = Some (VStr "INVALID_PARAMS") ∧
    count is_end (trace (createRestAction (collab (ok 200) parse_status)
               endpoints (config schema None None) "svc" "act"
               (options AuthUndefined) (call bad_args))) = 1%nat.
Proof.
  destruct (invalid_params_reject (collab (ok 200) parse_status) endpoints
              (config schema None None) "svc" "act" (options AuthUndefined)
              (call bad_args) eq_refl) as [_ H].
  destruct (H eq_refl)
    as (name & tags & v & err & details & Ho & Herr & _ & Hcode & _ & _ & _ & Hend).
  exists v, err. repeat split; assumption.
Defined.



(** C10, witness: the transport answers 204, the stats say 200. *)
Lemma success_reports_200_witness :
  statuses (trace (createRestAction (collab (ok 204) parse_status) endpoints
                     plain "svc" "act" (options AuthUndefined)
                     (call good_args))) = [Some (VNum 200)].
Proof.
  destruct (request_issued (collab (ok 204) parse_status) endpoints plain
              "svc" "act" (options AuthUndefined) (call good_args)
              eq_refl eq_refl) as (c & rc & Hin).
  exact (success_reports_200 (collab (ok 204) parse_status) endpoints plain
           "svc" "act" (options AuthUndefined) (call good_args) c rc _ Hin
           eq_refl).
Defined.

(** C10, counterexample: the transport call returns and the log of line 329
    throws; stats are emitted twice, and the second emission reports 500. *)
Lemma late_throw_reports_error_status :
  let E := throwing GLogCompleted (VStr "log failed")
             (collab (ok 204) parse_status) in
  let m := createRestAction E endpoints plain "svc" "act"
             (options AuthUndefined) (call good_args) in
  (∃ c rc r, EvRequest c rc ∈ trace m ∧ request E c rc = Returns r) ∧
  statuses (trace m) = [Some (VNum 200); Some (VNum 500)] ∧
  count is_stats (trace m) = 2%nat ∧ count is_end (trace m) = 1%nat.
Proof.
  intros E m. split.
  - destruct (request_issued E endpoints plain "svc" "act"
                (options AuthUndefined) (call good_args) eq_refl eq_refl)
      as (c & rc & Hin).
    exists c, rc. eexists. split; [exact Hin | reflexivity].
  - vm_compute. repeat split.
Qed.

(** * Further properties of the dispatch *)

(** ** The composed headers, name by name *)

Lemma get_insert_eq (o : obj) k v : get (<[k := v]> o) k = v.
Proof. unfold get. by rewrite lookup_insert_eq. Qed.

Lemma get_insert_ne (o : obj) k k' v : k ≠ k' → get (<[k := v]> o) k' = get o k'.
Proof. intros H. unfold get. by rewrite lookup_insert_ne. Qed.

Lemma get_None (o : obj) k : o !! k = None → get o k = VUndef.
Proof. unfold get. by intros ->. Qed.

Lemma seedHeaders_other E url lang k :
  k ∉ seed_names → seedHeaders E url lang !! k = None.
Proof.
  unfold seed_names, seedHeaders, object. intros Hk.
  rewrite !list_to_map_cons, list_to_map_nil. cbn [fst snd].
  repeat (rewrite lookup_insert_ne; [|intros <-; apply Hk; set_solver]).
  done.
Qed.

Lemma omit_undefined_None (o : obj) k :
  get o k = VUndef → omit_undefined o !! k = None.
Proof.
  intros H. destruct (omit_undefined o !! k) as [v|] eqn:Hv; [|done].
  apply omit_undefined_lookup in Hv as [Hv Hne].
  rewrite (get_Some _ _ _ Hv) in H. done.
Qed.

Section Passthrough.
Context (rh : obj).

Lemma passthrough_cons n names h :
  passthrough rh (n :: names) h =
  passthrough rh names
    (if is_undef (read h n) then <[n := read rh n]> h else h).
Proof. reflexivity. Qed.

(** A name outside the list is left alone. *)
Lemma passthrough_other names h k :
  k ∉ names → passthrough rh names h !! k = h !! k.
Proof.
  revert h. induction names as [|n names IH]; intros h Hk; [done|].
  rewrite passthrough_cons, IH by set_solver.
  destruct (is_undef (read h n)); [|done].
  rewrite lookup_insert_ne; [done|]. set_solver.
Qed.

(** Once a name holds the inbound header, it keeps it. *)
Lemma passthrough_stable names h k :
  h !! k = Some (read rh k) → passthrough rh names h !! k = Some (read rh k).
Proof.
  revert h. induction names as [|n names IH]; intros h Hk; [done|].
  rewrite passthrough_cons. apply IH.
  destruct (is_undef (read h n)); [|done].
  destruct (decide (n = k)) as [->|Hne].
  - apply lookup_insert_eq.
  - by rewrite lookup_insert_ne.
Qed.

(** A listed name that nothing has set yet and that [Object.prototype] does
    not have is given the inbound header. *)
Lemma passthrough_copies names h k :
  k ∈ names → h !! k = None → inherited k = false →
  passthrough rh names h !! k = Some (read rh k).
Proof.
  revert h. induction names as [|n names IH]; intros h Hk Hu Hi; [set_solver|].
  rewrite passthrough_cons.
  destruct (decide (n = k)) as [Heq|Hne].
  - subst n. rewrite (read_None _ _ Hu), Hi. simpl.
    apply passthrough_stable, lookup_insert_eq.
  - apply elem_of_cons in Hk as [Hk|Hk]; [congruence|].
    apply IH; [done| |done].
    destruct (is_undef (read h n)); [|done]. by rewrite lookup_insert_ne.
Qed.

(** A name that nothing has set yet and that [Object.prototype] has is left
    unset: the test of line 176 sees the inherited member. *)
Lemma passthrough_inherited names h k :
  h !! k = None → inherited k = true → passthrough rh names h !! k = None.
Proof.
  revert h. induction names as [|n names IH]; intros h Hu Hi; [done|].
  rewrite passthrough_cons. apply IH; [|done].
  destruct (is_undef (read h n)) eqn:Hn; [|done].
  destruct (decide (n = k)) as [->|Hne].
  - by rewrite (read_None _ _ Hu), Hi in Hn.
  - by rewrite lookup_insert_ne.
Qed.
End Passthrough.

Section Composed.
Context (E : Collab).
Context (endpoints : option EndpointsConfig)
        (config : ApiServiceRestActionConfig)
        (serviceKey actionName : string)
        (options : GatewayApiOptions).

Abbreviation run := (action E endpoints config serviceKey actionName options).
Abbreviation auth := (λ ac, authProvider config options (authParams serviceKey options ac)).

(** The value of the composed headers, step by step. *)
Lemma composeHeaders_value url ac :
  outcome (composeHeaders E config serviceKey options url ac) =
  Resolve (omit_undefined
             (assignAuth
                (stampIdempotency E config (ac_headers ac)
                   (stampRequestId (ac_requestId ac)
                      (passthrough (ac_headers ac) (proxy_names E config options)
                         (merged E config options url ac))))
                (auth ac))).
Proof.
  destruct (composeHeaders_outcome E config serviceKey options url ac)
    as (st1 & st2 & H1 & H2 & ->).
  rewrite injectProxyHeaders_outcome in H1. injection H1 as <-.
  rewrite injectProxyHeaders_outcome in H2. injection H2 as <-.
  unfold merged, proxy_names, assign.
  destruct (opt_proxyHeaders options), (cfg_proxyHeaders config); simpl;
    rewrite ?(left_id_L ∅ (∪)), ?app_nil_r, <- ?app_assoc; reflexivity.
Qed.

(** The transmitted headers when the parameter producer does not replace
    them: the composed ones over the tracing metadata. *)
Lemma transmitted_composed ac h :
  no_headers_override config →
  h ∈ transmitted (trace (run ac)) →
  ∃ e,
    selectedEndpoint endpoints config (ac_args ac) = Some e ∧
    h = assign (getMetadata E)
          (omit_undefined
             (assignAuth
                (stampIdempotency E config (ac_headers ac)
                   (stampRequestId (ac_requestId ac)
                      (passthrough (ac_headers ac) (proxy_names E config options)
                         (merged E config options (actionURL E config options e (ac_args ac)) ac))))
                (auth ac))).
Proof.
  intros Hno Hin. apply transmitted_request in Hin as (c & rc & Hin & ->).
  destruct (reach E endpoints config serviceKey actionName options ac c rc Hin)
    as (_ & e & hc & params & p & He & _ & Hh & Hp & _ & -> & _).
  rewrite (headers_of_no_override config _ _ _ Hno Hp).
  rewrite composeHeaders_value in Hh. injection Hh as <-. by exists e.
Qed.
End Composed.

Section Forwarding.
Context (E : Collab).
Context (endpoints : option EndpointsConfig)
        (config : ApiServiceRestActionConfig)
        (serviceKey actionName : string)
        (options : GatewayApiOptions).

Abbreviation run := (action E endpoints config serviceKey actionName options).
Abbreviation auth := (λ ac, authProvider config options (authParams serviceKey options ac)).
Abbreviation service_fn := (proxy_fn_headers (opt_proxyHeaders options)).
Abbreviation action_fn := (proxy_fn_headers (cfg_proxyHeaders config)).

Lemma or_defined a b :
  b ≠ VUndef → (if truthy a then a else b) ≠ VUndef.
Proof. intros Hb. destruct (truthy a) eqn:Ha; [|done]. by intros ->. Qed.

Lemma merged_unset url ac k :
  k ∉ seed_names →
  service_fn (ac_headers ac) !! k = None →
  action_fn (ac_headers ac) !! k = None →
  merged E config options url ac !! k = None.
Proof.
  intros Hseed Hs Ha. unfold merged.
  rewrite !assign_lookup_target by done. by apply seedHeaders_other.
Qed.

Lemma stamped_other ac (h : obj) k :
  k ≠ "x-request-id" → k ≠ "idempotency-key" →
  auth_silent (auth ac) k →
  assignAuth
    (stampIdempotency E config (ac_headers ac)
       (stampRequestId (ac_requestId ac) h)) (auth ac) !! k = h !! k.
Proof.
  intros Hrid Hidem Hauth.
  by rewrite assignAuth_silent, stampIdempotency_other, stampRequestId_other.
Qed.






End Forwarding.


Section Building.
Context (E : Collab).
Context (endpoints : option EndpointsConfig)
        (config : ApiServiceRestActionConfig)
        (serviceKey actionName : string)
        (options : GatewayApiOptions).

Abbreviation run := (action E endpoints config serviceKey actionName options).
Abbreviation pre := (prepare E endpoints config serviceKey actionName options).
Abbreviation fin := (finish E config serviceKey actionName options).
Abbreviation vfails := (validation_fails E config options).
Abbreviation chosen := (selectedEndpoint endpoints config).

Lemma selectedEndpoint_value args :
  chosen args =
  match cfg_endpoint config with
  | EndpointFn f => f endpoints args
  | EndpointKey k =>
      if String.eqb k EmptyString then table_get endpoints "endpoint"
      else table_get endpoints k
  | EndpointUnset => table_get endpoints "endpoint"
  end.
Proof.
  unfold selectedEndpoint, selectEndpoint.
  destruct (cfg_endpoint config) as [f|k|]; [done| |done].
  by destruct (String.eqb k EmptyString).
Qed.

(** X7. A configured selector is final: when the selector function returns
    nothing, or the (non-empty) named key is neither a key of the table nor
    the name of a member of [Object.prototype], a call that passes
    validation is rejected with ENDPOINT_NOT_FOUND and no transport call is
    made, also when the table has a default entry. *)
Theorem configured_selector_has_no_default_fallback ac :
  vfails (ac_args ac) = false →
  match cfg_endpoint config with
  | EndpointFn f => f endpoints (ac_args ac) = None
  | EndpointKey k =>
      k ≠ EmptyString ∧ inherited k = false ∧
      match endpoints with
      | Some table => table !! k = None
      | None => True
      end
  | EndpointUnset => False
  end →
  outcome (run ac) = Reject (endpointNotFoundRejection serviceKey) ∧
  count is_request (trace (run ac)) = 0%nat.
Proof.
  intros Hv Hsel.
  assert (chosen (ac_args ac) = None) as Hnone.
  { rewrite selectedEndpoint_value.
    destruct (cfg_endpoint config) as [f|k|]; [done| |done].
    destruct Hsel as (Hk & Hi & Hnone). apply String.eqb_neq in Hk.
    rewrite Hk. unfold table_get. destruct endpoints as [table|]; [|done].
    by rewrite Hnone, Hi. }
  assert (endpoint_truthy (chosen (ac_args ac)) = false) as He by (by rewrite Hnone).
  destruct (endpoint_failure E endpoints config serviceKey actionName options
              ac Hv He) as [Ho Hearly].
  split; [done|]. by destruct (early_counts _ Hearly) as (_ & _ & ? & _).
Qed.

(** X23. A named key that the table does not have, but that is the name of a
    member of [Object.prototype], is resolved, to that member: the look-up
    of line 122 comes back with it, it is truthy, and the request goes out,
    to the member's text followed by the action path. *)
Theorem inherited_endpoint_key_resolves ac k table :
  vfails (ac_args ac) = false →
  cfg_endpoint config = EndpointKey k → endpoints = Some table →
  table !! k = None → inherited k = true →
  chosen (ac_args ac) = Some (InheritedMember k) ∧
  ∃ c rc, EvRequest c rc ∈ trace (run ac) ∧
          rc_url rc = actionURL E config options (InheritedMember k) (ac_args ac).
Proof.
  intros Hv Hsel Htable Hk Hi.
  assert (k ≠ EmptyString) as Hne by (by intros ->).
  assert (chosen (ac_args ac) = Some (InheritedMember k)) as Hc.
  { rewrite selectedEndpoint_value, Hsel, Htable.
    apply String.eqb_neq in Hne. rewrite Hne. unfold table_get.
    by rewrite Hk, Hi. }
  split; [done|].
  assert (endpoint_truthy (chosen (ac_args ac)) = true) as He by (by rewrite Hc).
  destruct (request_issued E endpoints config serviceKey actionName options
              ac Hv He) as (c & rc & Hin).
  exists c, rc. split; [done|].
  destruct (request_anatomy E endpoints config serviceKey actionName options
              ac c rc Hin) as (p & Hp & _ & -> & _).
  destruct (prepare_resolved E endpoints config serviceKey actionName options
              ac p Hp) as (_ & e & h & params & rb & name & tags & He' & _ & H).
  cbv zeta in H. destruct H as (_ & _ & _ & _ & -> & _).
  rewrite Hc in He'. by injection He' as <-.
Qed.

(** X8. The URL handed to the transport is the base of the resolved entry
    (the selector function's result, else the entry under the named key, else
    the default entry; the path field of an extended entry, the text of an
    inherited member) followed by the action path; the query is handed over
    apart, it is not appended. *)
Theorem request_url_is_base_plus_path ac c rc :
  EvRequest c rc ∈ trace (run ac) →
  ∃ e params,
    match cfg_endpoint config with
    | EndpointFn f => f endpoints (ac_args ac)
    | EndpointKey k =>
        if String.eqb k EmptyString then table_get endpoints "endpoint"
        else table_get endpoints k
    | EndpointUnset => table_get endpoints "endpoint"
    end = Some e ∧
    rc_url rc =
      match e with
      | PlainEndpoint url => url
      | ExtendedEndpoint path _ => path
      | InheritedMember k => member_text E k
      end
      +:+ match cfg_path config with
          | PathStatic p => p
          | PathFn f =>
              f (if truthy (cfg_validationSchema config)
                 then encodePathParams E (ac_args ac)
                 else getPathArgsProxy E (ac_args ac) (opt_encodePathArgs options))
          end ∧
    rc_method rc = cfg_method config ∧
    rc_params rc = query_of params ∧ rc_data rc = body_of params.
Proof.
  intros Hin.
  destruct (request_anatomy E endpoints config serviceKey actionName options
              ac c rc Hin) as (p & Hp & -> & -> & _).
  destruct (prepare_resolved E endpoints config serviceKey actionName options
              ac p Hp) as (_ & e & h & params & rb & name & tags & He & _ & H).
  cbv zeta in H. destruct H as (_ & _ & _ & _ & -> & _).
  exists e, params. rewrite <- selectedEndpoint_value. split; [done|].
  split; [|done]. simpl. unfold actionURL, actionEndpoint. by destruct e.
Qed.

Lemma produceParams_throws args h f err :
  cfg_params config = Some f → f args h = Throws err →
  outcome (produceParams config args h) = Resolve None ∧
  trace (produceParams config args h) =
    [EvCall CParams; EvHandleError err "Getting config params failed"].
Proof. intros Hf He. unfold produceParams. by rewrite Hf, outcome_bind, trace_bind, He. Qed.

Lemma produceParams_returns args h f po :
  cfg_params config = Some f → f args h = Returns po →
  outcome (produceParams config args h) = Resolve po.
Proof. intros Hf He. unfold produceParams. by rewrite Hf, outcome_bind, He. Qed.



Lemma coalesce_twice a b c d :
  coalesce a (coalesce b (coalesce c (coalesce b d))) =
  coalesce a (coalesce b (coalesce c d)).
Proof. by destruct b. Qed.

(** X11. The transport instance of a request is built with: as timeout, the
    call's own, else the action's, else the resolved endpoint's, else the
    service-level one (the first that is neither undefined nor null, so a
    timeout of 0 counts); the action's retries; and the service-level
    transport configuration overridden, key by key, by the endpoint's. *)
Theorem per_call_transport_settings ac c rc :
  EvRequest c rc ∈ trace (run ac) →
  ∃ e cfg,
    chosen (ac_args ac) = Some e ∧
    client_timeout c =
      coalesce (ac_timeout ac)
        (coalesce (cfg_timeout config)
           (coalesce (get (endpointAxiosConfig e) "timeout")
              (opt_timeout options))) ∧
    client_retries c = cfg_retries config ∧
    client_config c = Some cfg ∧
    ∀ k, cfg !! k =
         match endpointAxiosConfig e !! k with
         | Some v => Some v
         | None => default ∅ (opt_axiosConfig options) !! k
         end.
Proof.
  intros Hin.
  destruct (reach E endpoints config serviceKey actionName options ac c rc Hin)
    as (_ & e & h & params & p & He & _ & _ & _ & Hc & _).
  exists e. revert Hc. unfold selectClient.
  replace (truthy (VObj (endpointAxiosConfig e))) with true by done.
  rewrite orb_true_r, outcome_bind. cbn [outcome emit snd mret M_ret].
  intros [= <-]. eexists. split; [done|]. simpl.
  split; [unfold base_timeout; apply coalesce_twice|]. do 2 (split; [done|]).
  intros k. unfold assign. rewrite lookup_union.
  by destruct (endpointAxiosConfig e !! k), (default ∅ (opt_axiosConfig options) !! k).
Qed.
End Building.

Section Settling.
Context (E : Collab).
Context (endpoints : option EndpointsConfig)
        (config : ApiServiceRestActionConfig)
        (serviceKey actionName : string)
        (options : GatewayApiOptions).

Abbreviation run := (action E endpoints config serviceKey actionName options).
Abbreviation pre := (prepare E endpoints config serviceKey actionName options).
Abbreviation fin := (finish E config serviceKey actionName options).

(** X12. A dispatch resolves exactly when it made a transport call, that
    call returned, and none of the calls that follow it inside the [try]
    (stats, completion log, closing of the span, and the helpers that clean
    the headers for them) throws; every other dispatch rejects. *)
Theorem resolves_iff_transport_returns ac :
  (∃ r, outcome (run ac) = Resolve r) ↔
  (∃ c rc resp, EvRequest c rc ∈ trace (run ac) ∧
                request E c rc = Returns resp) ∧
  stops_at E options = None.
Proof.
  split.
  - intros [r Hr].
    pose proof (action_cases E endpoints config serviceKey actionName options ac)
      as Ha.
    destruct (outcome (pre ac)) as [p|v]; [|destruct Ha as (_ & Ho & _); congruence].
    destruct Ha as (Ht & Ho & _).
    pose proof (finish_spec E config serviceKey actionName options ac p) as Hf.
    destruct (request E (p_client p) (p_config E config p)) as [resp|error] eqn:Hreq.
    + destruct Hf as (data & _ & Hf).
      destruct (stops_at E options) as [[g error]|].
      * destruct Hf as (parsed & t1 & t2 & _ & Hfo & _). congruence.
      * split; [|done].
        exists (p_client p), (p_config E config p), resp. split; [|done].
        rewrite Ht. apply elem_of_app. right. apply list_elem_of_here.
    + destruct Hf as (parsed & _ & Hfo & _). congruence.
  - intros [(c & rc & resp & Hin & Hreq) Hstop].
    destruct (returns_resolves E endpoints config serviceKey actionName options
                ac c rc resp Hin Hreq Hstop) as (data & dh & _ & Ho).
    by eexists.
Qed.

(** X13. When the response-transform hook returns and none of the calls
    that follow inside the [try] throws, the dispatch resolves with the value
    the hook returned in place of the transport's payload; a throw of the log
    written after the hook is handed to [handleError] and changes nothing of
    this. *)
Theorem transformed_payload_returned ac c rc resp hook d :
  EvRequest c rc ∈ trace (run ac) →
  request E c rc = Returns resp →
  cfg_transformResponseData config = Some hook →
  hook (resp_data resp) (ac_args ac) (resp_headers resp) = Returns d →
  stops_at E options = None →
  ∃ dh, outcome (run ac) = Resolve {| responseData := d; debugHeaders := dh |}.
Proof.
  intros Hin Hreq Hhook Hret Hstop.
  destruct (request_anatomy E endpoints config serviceKey actionName options
              ac c rc Hin) as (p & _ & -> & -> & _ & Ho).
  pose proof (finish_spec E config serviceKey actionName options ac p) as Hf.
  rewrite Hreq, Hstop in Hf. destruct Hf as (data & Hd & Hfo & _).
  revert Hd. unfold transformData.
  rewrite Hhook, outcome_bind. cbn [outcome emit snd]. rewrite Hret, outcome_bind.
  cbn [outcome emit snd].
  destruct (throws_at E GLogTransformed);
    [rewrite outcome_bind|]; cbn [outcome handleError emit snd mret M_ret];
    intros [= <-]; exists (p_debugHeaders p); by rewrite Ho.
Qed.

Lemma bodyPreview_bounded body rb :
  outcome (bodyPreview E body) = Resolve rb →
  match rb with Some s => (String.length s < 256)%nat | None => True end.
Proof.
  unfold bodyPreview. destruct (encodeBody E body) as [s|e].
  - cbn [outcome mret M_ret snd].
    destruct (Z.ltb_spec (Z.of_nat (String.length s)) 256) as [Hlt|Hge];
      intros [= <-]; [lia|done].
  - rewrite outcome_bind. cbn [outcome emit snd mret M_ret]. by intros [= <-].
Qed.

Lemma buildDebugHeaders_preview url ac query headers rb :
  match rb with Some s => (String.length s < 256)%nat | None => True end →
  preview_ok (get (buildDebugHeaders E config url ac query headers rb)
                "x-api-request-body").
Proof.
  intros Hrb. unfold buildDebugHeaders.
  assert (∀ dh : obj,
            get (if truthy (get headers "content-type")
                 then <["x-api-content-type" := get headers "content-type"]> dh
                 else dh) "x-api-request-body" = get dh "x-api-request-body")
    as Hct.
  { intros dh. destruct (truthy _); [|done]. by rewrite get_insert_ne. }
  rewrite Hct. unfold assign, object, get.
  rewrite !list_to_map_cons. cbn [fst snd]. simplify_map_eq.
  destruct rb as [s|]; [|done].
  destruct (String.eqb_spec s EmptyString) as [->|Hne]; [done|].
  simpl. split; [|done]. destruct s; [done|simpl; lia].
Qed.

(** X14. The body preview among the debug headers of a dispatch that got to
    the transport call is either absent ([null]) or a non-empty string of
    fewer than 256 characters, on success and on failure alike. *)
Theorem body_preview_bounded ac c rc dh :
  EvRequest c rc ∈ trace (run ac) →
  debug_of (outcome (run ac)) = Some dh →
  preview_ok (get dh "x-api-request-body").
Proof.
  intros Hin Hdh.
  destruct (request_anatomy E endpoints config serviceKey actionName options
              ac c rc Hin) as (p & Hp & -> & -> & _ & Ho).
  assert (dh = p_debugHeaders p) as ->.
  { rewrite Ho, (finish_debug E config serviceKey actionName options ac p)
      in Hdh. by injection Hdh. }
  destruct (prepare_resolved E endpoints config serviceKey actionName options
              ac p Hp) as (_ & e & h & params & rb & name & tags & _ & _ & H).
  cbv zeta in H. destruct H as (_ & _ & Hb & _ & -> & _).
  cbn [p_debugHeaders]. apply buildDebugHeaders_preview.
  by apply (bodyPreview_bounded (body_of params)).
Qed.
End Settling.


(** ** Which collaborators are called *)

Lemma calls_app t1 t2 : calls (t1 ++ t2) = calls t1 ++ calls t2.
Proof. apply omap_app. Qed.

Lemma stats_records_app t1 t2 :
  stats_records (t1 ++ t2) = stats_records t1 ++ stats_records t2.
Proof. apply omap_app. Qed.

Lemma Forall_trace_bind {A B} (Q : event → Prop) (m : M A) (f : A → M B) :
  Forall Q (trace m) → (∀ a, Forall Q (trace (f a))) →
  Forall Q (trace (m ≫= f)).
Proof.
  intros Hm Hf. rewrite trace_bind. apply Forall_app. split; [done|].
  destruct (outcome m); [apply Hf | constructor].
Qed.

Lemma Forall_emit (Q : event → Prop) e : Q e → Forall Q (trace (emit e)).
Proof. intros H. by repeat constructor. Qed.

Lemma Forall_ret {A} (Q : event → Prop) (a : A) : Forall Q (trace (mret a)).
Proof. constructor. Qed.

Lemma Forall_reject {A} (Q : event → Prop) v : Forall Q (trace (reject (A := A) v)).
Proof. constructor. Qed.

Lemma preparatory_calls t c :
  Forall preparatory t → c ∈ calls t → before_transport c = true.
Proof.
  intros Ht Hc. apply list_elem_of_omap in Hc as (e & He & Hc).
  rewrite Forall_forall in Ht. specialize (Ht e He).
  destruct e; try done. by injection Hc as <-.
Qed.

Lemma no_call_calls t : Forall no_call t → calls t = [].
Proof.
  induction 1 as [|e t He _ IH]; [done|].
  replace (e :: t) with ([e] ++ t) by done. rewrite calls_app, IH.
  by destruct e.
Qed.

Lemma quiet_stats_records t : quiet t → stats_records t = [].
Proof.
  induction 1 as [|e t He _ IH]; [done|].
  replace (e :: t) with ([e] ++ t) by done. rewrite stats_records_app, IH.
  by destruct e.
Qed.

Section Calls.
Context (E : Collab).
Context (endpoints : option EndpointsConfig)
        (config : ApiServiceRestActionConfig)
        (serviceKey actionName : string)
        (options : GatewayApiOptions).

Abbreviation run := (action E endpoints config serviceKey actionName options).
Abbreviation pre := (prepare E endpoints config serviceKey actionName options).
Abbreviation fin := (finish E config serviceKey actionName options).

Ltac events :=
  repeat first
    [ apply Forall_ret
    | apply Forall_reject
    | apply Forall_emit; first [exact I | reflexivity]
    | apply Forall_trace_bind; [|intros ?; cbv beta zeta] ].

Lemma preparatory_validation args dh :
  Forall preparatory (trace (validation E config options args dh)).
Proof.
  unfold validation. destruct (truthy (validationSchema _ _)); [|events].
  apply Forall_trace_bind; [events|intros _; cbv beta zeta].
  destruct (truthy (validateArgs _ _ _)); events.
Qed.

Lemma preparatory_resolveEndpoint args :
  Forall preparatory
    (trace (resolveEndpoint endpoints config serviceKey actionName options args)).
Proof.
  unfold resolveEndpoint. apply Forall_trace_bind.
  - unfold selectEndpoint. destruct (cfg_endpoint config) as [f|k|]; [events| |events].
    destruct (String.eqb k _); events.
  - intros [e|]; [destruct (endpoint_truthy _)|]; unfold endpointNotFound; events.
Qed.

Lemma preparatory_composeHeaders url ac :
  Forall preparatory (trace (composeHeaders E config serviceKey options url ac)).
Proof.
  unfold composeHeaders.
  apply Forall_trace_bind; [destruct (opt_proxyHeaders options); events|intros ?].
  apply Forall_trace_bind; [destruct (cfg_proxyHeaders config); events|intros ?].
  events.
Qed.

Lemma preparatory_produceParams args h :
  Forall preparatory (trace (produceParams config args h)).
Proof.
  unfold produceParams. destruct (cfg_params config) as [f|]; [|events].
  apply Forall_trace_bind; [events|intros _; cbv beta zeta]. destruct (f args h); events.
Qed.

Lemma preparatory_bodyPreview body :
  Forall preparatory (trace (bodyPreview E body)).
Proof. unfold bodyPreview. destruct (encodeBody E body); events. Qed.

Lemma preparatory_selectClient ac e :
  Forall preparatory (trace (selectClient config options ac e)).
Proof. unfold selectClient. destruct (_ || _); events. Qed.

(** Before the transport call neither a transform hook nor the fallback
    parser is called. *)
Lemma preparatory_prepare ac : Forall preparatory (trace (pre ac)).
Proof.
  unfold prepare.
  repeat (apply Forall_trace_bind;
          [ first [ apply preparatory_validation
                  | apply preparatory_resolveEndpoint
                  | apply preparatory_composeHeaders
                  | apply preparatory_produceParams
                  | apply preparatory_bodyPreview
                  | apply preparatory_selectClient
                  | events ]
          | intros ? ]).
  events.
Qed.

Lemma no_call_emitStats rd sizeOf status h dh :
  Forall no_call (trace (emitStats E options rd sizeOf status h dh)).
Proof.
  unfold emitStats. destruct (opt_sendStats options); [|events].
  apply Forall_trace_bind; [|intros ?; events].
  unfold getRestResponseSize. destruct (JSON_stringify E sizeOf) as [[s|]|e]; events.
Qed.

(** The one stats record of an emission. *)
Lemma emitStats_records rd sizeOf status h dh :
  stats_records (trace (emitStats E options rd sizeOf status h dh)) =
  [assign rd
     (if opt_sendStats options
      then object [("responseSize", responseSizeOf E sizeOf);
                   ("restStatus", status)]
      else object [("responseStatus", status)])].
Proof.
  unfold emitStats, responseSizeOf, getRestResponseSize.
  destruct (opt_sendStats options); [|done].
  by destruct (JSON_stringify E sizeOf) as [[s|]|e].
Qed.
End Calls.

Section Normalizing.
Context (E : Collab).
Context (endpoints : option EndpointsConfig)
        (config : ApiServiceRestActionConfig)
        (serviceKey actionName : string)
        (options : GatewayApiOptions).

Abbreviation run := (action E endpoints config serviceKey actionName options).
Abbreviation pre := (prepare E endpoints config serviceKey actionName options).
Abbreviation fin := (finish E config serviceKey actionName options).
Abbreviation normalize := (normalizeError E config).

Lemma has_key_object error k :
  has_key error k = true → truthy error && is_object error && has_key error k = true.
Proof. by destruct error. Qed.

Lemma has_key_none error k :
  has_key error k = false → truthy error && is_object error && has_key error k = false.
Proof. intros ->. apply andb_false_r. Qed.

Lemma normalize_hook_returns args error lang hook pe :
  cfg_transformResponseError config = Some hook →
  has_key error "response" = true →
  hook (get_path error "response") args = Returns (Some pe) →
  outcome (normalize args error lang) = Resolve (Some pe) ∧
  trace (normalize args error lang) =
    [EvCall CTransformResponseError; EvLog "Transformed response error" VUndef]
    ++ match throws_at E GLogTransformedError with
       | Some e => [EvHandleError e "Transform response error failed"]
       | None => []
       end.
Proof.
  intros Hhook Hkey Hret. unfold normalizeError, transformError.
  rewrite Hhook, (has_key_object _ _ Hkey), !outcome_bind, !trace_bind, Hret.
  cbn [outcome trace emit fst snd]. rewrite !outcome_bind, !trace_bind.
  cbn [outcome trace emit fst snd].
  by destruct (throws_at E GLogTransformedError).
Qed.

Lemma normalize_hook_throws args error lang hook herr :
  cfg_transformResponseError config = Some hook →
  has_key error "response" = true →
  hook (get_path error "response") args = Throws herr →
  outcome (normalize args error lang) =
    outcome (fallbackParse E error lang None) ∧
  trace (normalize args error lang) =
    [EvCall CTransformResponseError;
     EvHandleError herr "Transform response error failed"] ++
    trace (fallbackParse E error lang None).
Proof.
  intros Hhook Hkey Hthrows. unfold normalizeError, transformError.
  by rewrite Hhook, (has_key_object _ _ Hkey), !outcome_bind, !trace_bind, Hthrows.
Qed.

Lemma normalize_hook_skipped args error lang :
  has_key error "response" = false →
  outcome (normalize args error lang) =
    outcome (fallbackParse E error lang None) ∧
  trace (normalize args error lang) = trace (fallbackParse E error lang None).
Proof.
  intros Hkey. unfold normalizeError, transformError.
  destruct (cfg_transformResponseError config) as [hook|];
    rewrite ?(has_key_none _ _ Hkey), ret_bind; done.
Qed.

Lemma fallbackParse_returns error lang pe :
  parseRestError E error lang = Returns pe →
  outcome (fallbackParse E error lang None) = Resolve pe ∧
  trace (fallbackParse E error lang None) = [EvCall CParseRestError].
Proof. intros H. unfold fallbackParse. by rewrite outcome_bind, trace_bind, H. Qed.

Lemma fallbackParse_throws error lang perr :
  parseRestError E error lang = Throws perr →
  outcome (fallbackParse E error lang None) = Resolve None ∧
  trace (fallbackParse E error lang None) =
    [EvCall CParseRestError; EvHandleError perr "Error parse rest error"].
Proof. intros H. unfold fallbackParse. by rewrite outcome_bind, trace_bind, H. Qed.

(** A transport failure, with the normalized error and the trace of the
    normalization named. *)
Lemma failure_anatomy ac c rc error :
  EvRequest c rc ∈ trace (run ac) →
  request E c rc = Throws error →
  ∃ p parsed pre_t stats_t log,
    outcome (normalize (ac_args ac) error (lang_of E (ac_headers ac))) =
      Resolve parsed ∧
    outcome (run ac) =
      Reject (failure parsed (ac_requestId ac) (p_debugHeaders p)) ∧
    Forall preparatory pre_t ∧ Forall no_call stats_t ∧
    trace (run ac) =
      pre_t ++ EvRequest c rc ::
      trace (normalize (ac_args ac) error (lang_of E (ac_headers ac))) ++
      stats_t ++ [log; EvEnd] ∧
    no_call log.
Proof.
  intros Hin Hreq.
  destruct (request_anatomy E endpoints config serviceKey actionName options
              ac c rc Hin) as (p & Hp & -> & -> & Ht & Ho).
  pose proof (finish_spec E config serviceKey actionName options ac p) as Hf.
  pose proof (finish_trace E config serviceKey actionName options ac p) as Hft.
  cbv zeta in Hft. rewrite Hreq in Hf, Hft.
  destruct Hf as (parsed & Hn & Hfo & _).
  destruct (onFailure_trace E config serviceKey options (now_end E) (p_url p) ac
              (requestData E config serviceKey actionName options (p_url p) ac)
              (p_headers p) (p_debugHeaders p) error) as (parsed' & Hn' & Hot).
  rewrite Hot in Hft. clear Hot.
  rewrite Hn in Hn'. injection Hn' as <-.
  exists p, parsed. eexists _, _, _. split; [done|]. split; [by rewrite Ho|].
  split; [apply preparatory_prepare|]. split; [apply no_call_emitStats|].
  split; [by rewrite Ht, Hft|]. done.
Qed.

Ltac not_called :=
  cbn;
  let H := fresh in
  intros H;
  repeat (apply elem_of_cons in H as [H|H]; [discriminate|]);
  by apply elem_of_nil in H.

Lemma not_elem_of_calls t1 c rc t2 t3 log x :
  Forall preparatory t1 → before_transport x = false →
  x ∉ calls t2 → Forall no_call t3 → no_call log →
  x ∉ calls (t1 ++ EvRequest c rc :: t2 ++ t3 ++ [log; EvEnd]).
Proof.
  intros H1 Hx H2 H3 Hlog Hin.
  replace (EvRequest c rc :: t2 ++ t3 ++ [log; EvEnd])
    with ([EvRequest c rc] ++ t2 ++ t3 ++ [log] ++ [EvEnd]) in Hin by done.
  rewrite !calls_app, (no_call_calls t3 H3) in Hin.
  rewrite !elem_of_app in Hin.
  destruct Hin as [Hin|[Hin|[Hin|[Hin|[Hin|Hin]]]]].
  - apply (preparatory_calls _ _ H1) in Hin. congruence.
  - by apply elem_of_nil in Hin.
  - done.
  - by apply elem_of_nil in Hin.
  - destruct log; try done; by apply elem_of_nil in Hin.
  - by apply elem_of_nil in Hin.
Qed.

(** X15. When the raw error carries a response and the error-transform hook
    returns an error object, that object (with the call's request id) is what
    the caller gets, and the fallback parser is not called. *)
Theorem error_hook_result_wins ac c rc error hook pe :
  EvRequest c rc ∈ trace (run ac) →
  request E c rc = Throws error →
  has_key error "response" = true →
  cfg_transformResponseError config = Some hook →
  hook (get_path error "response") (ac_args ac) = Returns (Some pe) →
  (∃ dh, outcome (run ac) = Reject (failure (Some pe) (ac_requestId ac) dh)) ∧
  CParseRestError ∉ calls (trace (run ac)).
Proof.
  intros Hin Hreq Hkey Hhook Hret.
  destruct (failure_anatomy ac c rc error Hin Hreq)
    as (p & parsed & pre_t & stats_t & log & Hn & Ho & Hpre & Hstats & Ht & Hlog).
  destruct (normalize_hook_returns (ac_args ac) error (lang_of E (ac_headers ac))
              hook pe Hhook Hkey Hret) as [Hno Hnt].
  rewrite Hno in Hn. injection Hn as <-.
  split; [by exists (p_debugHeaders p)|].
  rewrite Ht. apply not_elem_of_calls; try done.
  rewrite Hnt. destruct (throws_at E GLogTransformedError); not_called.
Qed.

(** X16. When the error-transform hook throws, its failure is handed to
    [handleError] and the caller gets what the fallback parser makes of the
    raw error. *)
Theorem error_hook_failure_falls_back ac c rc error hook herr pe :
  EvRequest c rc ∈ trace (run ac) →
  request E c rc = Throws error →
  has_key error "response" = true →
  cfg_transformResponseError config = Some hook →
  hook (get_path error "response") (ac_args ac) = Throws herr →
  parseRestError E error (lang_of E (ac_headers ac)) = Returns pe →
  (∃ dh, outcome (run ac) = Reject (failure pe (ac_requestId ac) dh)) ∧
  (herr, "Transform response error failed") ∈ handled (trace (run ac)).
Proof.
  intros Hin Hreq Hkey Hhook Hthrows Hparse.
  destruct (failure_anatomy ac c rc error Hin Hreq)
    as (p & parsed & pre_t & stats_t & log & Hn & Ho & Hpre & Hstats & Ht & Hlog).
  destruct (normalize_hook_throws (ac_args ac) error (lang_of E (ac_headers ac))
              hook herr Hhook Hkey Hthrows) as [Hno Hnt].
  destruct (fallbackParse_returns error (lang_of E (ac_headers ac)) pe Hparse)
    as [Hfo Hft].
  rewrite Hno, Hfo in Hn. injection Hn as <-.
  split; [by exists (p_debugHeaders p)|].
  rewrite Ht, Hnt.
  replace (EvRequest c rc :: _) with
    ([EvRequest c rc; EvCall CTransformResponseError] ++
     [EvHandleError herr "Transform response error failed"] ++
     trace (fallbackParse E error (lang_of E (ac_headers ac)) None) ++
     stats_t ++ [log; EvEnd]) by (by rewrite <- !app_assoc).
  rewrite !handled_app, !elem_of_app. right; right; left.
  apply list_elem_of_here.
Qed.

(** X17. A raw error without a response (a timeout, a refused connection)
    goes to the fallback parser directly: the error-transform hook is not
    called, whether one is configured or not. *)
Theorem error_hook_skipped_without_response ac c rc error pe :
  EvRequest c rc ∈ trace (run ac) →
  request E c rc = Throws error →
  has_key error "response" = false →
  parseRestError E error (lang_of E (ac_headers ac)) = Returns pe →
  (∃ dh, outcome (run ac) = Reject (failure pe (ac_requestId ac) dh)) ∧
  CTransformResponseError ∉ calls (trace (run ac)).
Proof.
  intros Hin Hreq Hkey Hparse.
  destruct (failure_anatomy ac c rc error Hin Hreq)
    as (p & parsed & pre_t & stats_t & log & Hn & Ho & Hpre & Hstats & Ht & Hlog).
  destruct (normalize_hook_skipped (ac_args ac) error (lang_of E (ac_headers ac))
              Hkey) as [Hno Hnt].
  destruct (fallbackParse_returns error (lang_of E (ac_headers ac)) pe Hparse)
    as [Hfo Hft].
  rewrite Hno, Hfo in Hn. injection Hn as <-.
  split; [by exists (p_debugHeaders p)|].
  rewrite Ht. apply not_elem_of_calls; try done.
  rewrite Hnt, Hft. not_called.
Qed.

(** X18. When no normalized error comes about (no hook result and the
    fallback parser throws), the parser's failure is handed to [handleError]
    and the dispatch still rejects, with an error object that holds the
    call's request id and nothing else. *)
Theorem unparsed_error_rejection ac c rc error perr :
  EvRequest c rc ∈ trace (run ac) →
  request E c rc = Throws error →
  has_key error "response" = false ∨ cfg_transformResponseError config = None →
  parseRestError E error (lang_of E (ac_headers ac)) = Throws perr →
  (∃ v, outcome (run ac) = Reject v ∧
        v !! "error" = Some (VObj {[ "requestId" := ac_requestId ac ]})) ∧
  (perr, "Error parse rest error") ∈ handled (trace (run ac)).
Proof.
  intros Hin Hreq Hskip Hparse.
  destruct (failure_anatomy ac c rc error Hin Hreq)
    as (p & parsed & pre_t & stats_t & log & Hn & Ho & Hpre & Hstats & Ht & Hlog).
  destruct (fallbackParse_throws error (lang_of E (ac_headers ac)) perr Hparse)
    as [Hfo Hft].
  assert (outcome (normalize (ac_args ac) error (lang_of E (ac_headers ac))) =
            Resolve None ∧
          trace (normalize (ac_args ac) error (lang_of E (ac_headers ac))) =
            [EvCall CParseRestError; EvHandleError perr "Error parse rest error"])
    as [Hno Hnt].
  { destruct Hskip as [Hkey|Hnone].
    - destruct (normalize_hook_skipped (ac_args ac) error
                  (lang_of E (ac_headers ac)) Hkey) as [-> ->]. done.
    - unfold normalizeError, transformError. rewrite Hnone, ret_bind. done. }
  rewrite Hno in Hn. injection Hn as <-.
  split.
  - eexists. split; [exact Ho|]. unfold failure, object.
    rewrite !list_to_map_cons. cbn [fst snd default]. rewrite lookup_insert_eq.
    by rewrite insert_empty.
  - rewrite Ht, Hnt.
    replace (EvRequest c rc :: _) with
      ([EvRequest c rc; EvCall CParseRestError] ++
       [EvHandleError perr "Error parse rest error"] ++
       stats_t ++ [log; EvEnd]) by done.
    rewrite !handled_app, !elem_of_app. right; right; left.
    apply list_elem_of_here.
Qed.
End Normalizing.

Section Reporting.
Context (E : Collab).
Context (endpoints : option EndpointsConfig)
        (config : ApiServiceRestActionConfig)
        (serviceKey actionName : string)
        (options : GatewayApiOptions).

Abbreviation run := (action E endpoints config serviceKey actionName options).
Abbreviation pre := (prepare E endpoints config serviceKey actionName options).
Abbreviation fin := (finish E config serviceKey actionName options).

Lemma getRestResponseSize_outcome data :
  outcome (getRestResponseSize E data) = Resolve (responseSizeOf E data).
Proof.
  unfold getRestResponseSize, responseSizeOf.
  by destruct (JSON_stringify E data) as [[s|]|e].
Qed.

(** The one stats record of the [catch] block. *)
Lemma onFailure_records t url ac rd h dh error parsed :
  outcome (normalizeError E config (ac_args ac) error
             (lang_of E (ac_headers ac))) = Resolve parsed →
  stats_records
    (trace (onFailure E config serviceKey options t url ac rd h dh error)) =
  [stats_record E options rd t (get_path (get_path error "response") "data")
     (responseStatus parsed error)].
Proof.
  intros Hn.
  destruct (onFailure_trace E config serviceKey options t url ac rd h dh error)
    as (parsed' & Hn' & ->).
  rewrite Hn in Hn'. injection Hn' as <-.
  destruct (calm_normalizeError E config (ac_args ac) error
              (lang_of E (ac_headers ac))) as [Hqn _].
  by rewrite !stats_records_app, (quiet_stats_records _ Hqn), emitStats_records.
Qed.

(** The stats record of the [try] block, when the block gets to it. *)
Lemma onSuccess_records ac rd h dh r data :
  outcome (transformData E config (ac_args ac) r) = Resolve data →
  stats_records (trace (onSuccess E config options ac rd h dh r)) =
  match stops_at E options with
  | Some (g, _) =>
      if before_stats g then []
      else [stats_record E options rd (now_end E) data (VNum 200)]
  | None => [stats_record E options rd (now_end E) data (VNum 200)]
  end.
Proof.
  intros Hd. unfold onSuccess.
  destruct (calm_transformData E config (ac_args ac) r) as [Hqt _].
  rewrite (trace_bind_resolve _ _ data Hd), stats_records_app,
    (quiet_stats_records _ Hqt).
  unfold stops_at, success_path, reportSuccess, guard, stats_record.
  destruct (opt_sendStats options); cbn [first_throw app].
  - destruct (calm_getRestResponseSize E data) as [Hqs _].
    rewrite (trace_bind_resolve _ _ _ (getRestResponseSize_outcome data)),
      stats_records_app, (quiet_stats_records _ Hqs).
    destruct (throws_at E GRedact); [done|].
    destruct (throws_at E GSanitizeStats); [done|].
    destruct (throws_at E GSendStats); [done|].
    destruct (throws_at E GSanitizeLog); [done|].
    destruct (throws_at E GLogCompleted); [done|].
    by destruct (throws_at E GEnd).
  - destruct (throws_at E GCtxStats); [done|].
    destruct (throws_at E GSanitizeLog); [done|].
    destruct (throws_at E GLogCompleted); [done|].
    by destruct (throws_at E GEnd).
Qed.

(** The stats records of what follows the transport call. *)
Lemma finish_records ac p :
  let rd := requestData E config serviceKey actionName options (p_url p) ac in
  match request E (p_client p) (p_config E config p) with
  | Returns r =>
      ∃ data,
        outcome (transformData E config (ac_args ac) r) = Resolve data ∧
        match stops_at E options with
        | None =>
            outcome (fin ac p) =
              Resolve {| responseData := data;
                         debugHeaders := p_debugHeaders p |} ∧
            stats_records (trace (fin ac p)) =
              [stats_record E options rd (now_end E) data (VNum 200)]
        | Some (g, error) =>
            ∃ parsed,
              outcome (normalizeError E config (ac_args ac) error
                         (lang_of E (ac_headers ac))) = Resolve parsed ∧
              stats_records (trace (fin ac p)) =
                (if before_stats g then []
                 else [stats_record E options rd (now_end E) data (VNum 200)])
                ++ [stats_record E options rd (now_caught E)
                      (get_path (get_path error "response") "data")
                      (responseStatus parsed error)]
        end
  | Throws error =>
      ∃ parsed,
        outcome (normalizeError E config (ac_args ac) error
                   (lang_of E (ac_headers ac))) = Resolve parsed ∧
        stats_records (trace (fin ac p)) =
          [stats_record E options rd (now_end E)
             (get_path (get_path error "response") "data")
             (responseStatus parsed error)]
  end.
Proof.
  intros rd.
  pose proof (finish_spec E config serviceKey actionName options ac p) as Hf.
  pose proof (finish_trace E config serviceKey actionName options ac p) as Hft.
  cbv zeta in Hft. fold rd in Hft.
  destruct (request E (p_client p) (p_config E config p)) as [r|error].
  - destruct Hf as (data & Hd & Hf). destruct Hft as (data' & Hd' & Hft).
    rewrite Hd in Hd'. injection Hd' as <-.
    exists data. split; [done|].
    pose proof (onSuccess_records ac rd (p_headers p) (p_debugHeaders p) r data
                  Hd) as Hrec.
    destruct (stops_at E options) as [[g error]|] eqn:Hstop.
    + destruct Hf as (parsed & t1 & t2 & Hn & _).
      exists parsed. split; [done|].
      by rewrite Hft, stats_records_app, Hrec,
        (onFailure_records _ _ _ _ _ _ _ parsed Hn).
    + destruct Hf as [Hfo _]. split; [done|].
      rewrite Hft. destruct (calm_transformData E config (ac_args ac) r) as [Hqt _].
      by rewrite !stats_records_app, (quiet_stats_records _ Hqt), emitStats_records.
  - destruct Hf as (parsed & Hn & _). exists parsed. split; [done|].
    by rewrite Hft, (onFailure_records _ _ _ _ _ _ _ parsed Hn).
Qed.

(** The stats records of a dispatch that got to the transport call are
    those of what follows the call. *)
Lemma stats_records_of_dispatch ac c rc :
  EvRequest c rc ∈ trace (run ac) →
  ∃ p, c = p_client p ∧ rc = p_config E config p ∧
       outcome (run ac) = outcome (fin ac p) ∧
       stats_records (trace (run ac)) = stats_records (trace (fin ac p)).
Proof.
  intros Hin.
  destruct (reach E endpoints config serviceKey actionName options ac c rc Hin)
    as (_ & e & h & params & p & _ & _ & _ & _ & _ & _ & -> & -> & Ht & Ho & Hq).
  exists p. do 3 (split; [done|]). rewrite Ht.
  replace (EvRequest (p_client p) (p_config E config p) :: trace (fin ac p))
    with ([EvRequest (p_client p) (p_config E config p)] ++ trace (fin ac p))
    by done.
  by rewrite !stats_records_app, (quiet_stats_records _ Hq).
Qed.

(** A dispatch that resolved made a transport call that returned, and got
    through the [try] block. *)
Lemma resolved_anatomy ac r :
  outcome (run ac) = Resolve r →
  ∃ p resp,
    EvRequest (p_client p) (p_config E config p) ∈ trace (run ac) ∧
    request E (p_client p) (p_config E config p) = Returns resp ∧
    stops_at E options = None ∧
    outcome (fin ac p) = Resolve r ∧
    stats_records (trace (run ac)) = stats_records (trace (fin ac p)).
Proof.
  intros Hr.
  pose proof (action_cases E endpoints config serviceKey actionName options ac)
    as Ha.
  destruct (outcome (pre ac)) as [p|v]; [|destruct Ha as (_ & Ho & _); congruence].
  destruct Ha as (Ht & Ho & Hq).
  pose proof (finish_spec E config serviceKey actionName options ac p) as Hf.
  exists p.
  destruct (request E (p_client p) (p_config E config p)) as [resp|error] eqn:Hreq.
  - destruct Hf as (data & _ & Hf).
    destruct (stops_at E options) as [[g error]|].
    + destruct Hf as (parsed & t1 & t2 & _ & Hfo & _). congruence.
    + exists resp. split.
      { rewrite Ht. apply elem_of_app. right. apply list_elem_of_here. }
      do 2 (split; [done|]). split; [by rewrite <- Ho|]. rewrite Ht.
      replace (EvRequest (p_client p) (p_config E config p) :: trace (fin ac p))
        with ([EvRequest (p_client p) (p_config E config p)] ++ trace (fin ac p))
        by done.
      by rewrite !stats_records_app, (quiet_stats_records _ Hq).
  - destruct Hf as (parsed & _ & Hfo & _). congruence.
Qed.

Lemma requestData_fields url ac :
  let rd := requestData E config serviceKey actionName options url ac in
  rd !! "timestamp" = Some (VNum (now_start E)) ∧
  rd !! "service" = Some (VStr (serviceName serviceKey options)) ∧
  rd !! "action" = Some (VStr actionName) ∧
  rd !! "requestId" = Some (ac_requestId ac) ∧
  rd !! "requestMethod" = Some (VStr (cfg_method config)) ∧
  rd !! "requestUrl" = Some (VStr url) ∧
  rd !! "requestTime" = None ∧ rd !! "responseSize" = None ∧
  rd !! "restStatus" = None ∧ rd !! "responseStatus" = None.
Proof.
  cbv zeta. unfold requestData, object. rewrite !list_to_map_cons.
  cbn [fst snd]. repeat split; by simplify_map_eq.
Qed.

(** The fields of a stats record. *)
Lemma stats_record_lookup url ac t sizeOf status :
  let record :=
    stats_record E options
      (requestData E config serviceKey actionName options url ac) t sizeOf
      status in
  record !! "timestamp" = Some (VNum (now_start E)) ∧
  record !! "requestTime" = Some (VNum (t - now_start E)) ∧
  record !! "service" = Some (VStr (serviceName serviceKey options)) ∧
  record !! "action" = Some (VStr actionName) ∧
  record !! "requestMethod" = Some (VStr (cfg_method config)) ∧
  record !! "requestId" = Some (ac_requestId ac) ∧
  record !! "requestUrl" = Some (VStr url) ∧
  (is_Some (record !! "responseSize") ↔ opt_sendStats options = true).
Proof.
  intros record. subst record. unfold stats_record.
  destruct (requestData_fields url ac)
    as (Hts & Hsvc & Hact & Hid & Hm & Hurl & Htime & Hsize & Hrest & Hresp).
  set (time := VNum (t - now_start E)).
  set (rd := requestData E config serviceKey actionName options url ac) in *.
  set (over := if opt_sendStats options
               then object [("responseSize", responseSizeOf E sizeOf);
                            ("restStatus", status)]
               else object [("responseStatus", status)]).
  assert (∀ k, k ≠ "responseSize" → k ≠ "restStatus" → k ≠ "responseStatus" →
               k ≠ "requestTime" →
               assign (<["requestTime" := time]> rd) over !! k = rd !! k) as Hkeep.
  { intros k H1 H2 H3 H4. rewrite assign_lookup_target.
    - by rewrite lookup_insert_ne.
    - unfold over, object. destruct (opt_sendStats options);
        rewrite !list_to_map_cons, list_to_map_nil; cbn [fst snd];
        rewrite !lookup_insert_ne by done; done. }
  rewrite (Hkeep "timestamp"), (Hkeep "service"), (Hkeep "action"),
    (Hkeep "requestMethod"), (Hkeep "requestId"), (Hkeep "requestUrl")
    by done.
  split; [exact Hts|]. split.
  { rewrite assign_lookup_target; [apply lookup_insert_eq|].
    unfold over, object. destruct (opt_sendStats options);
      rewrite !list_to_map_cons, list_to_map_nil; cbn [fst snd];
      rewrite !lookup_insert_ne by done; done. }
  split; [exact Hsvc|]. split; [exact Hact|]. split; [exact Hm|].
  split; [exact Hid|]. split; [exact Hurl|].
  unfold over, object. destruct (opt_sendStats options).
  - split; [done|]. intros _. eexists. apply assign_lookup_src.
    rewrite !list_to_map_cons. cbn [fst snd]. apply lookup_insert_eq.
  - split; [|done]. intros [v Hv]. rewrite assign_lookup_target in Hv.
    + rewrite lookup_insert_ne in Hv by done. congruence.
    + rewrite !list_to_map_cons, list_to_map_nil. cbn [fst snd].
      by rewrite lookup_insert_ne.
Qed.


(** X20. With a custom stats sink, the response size reported for a resolved
    dispatch is computed from the payload handed to the caller (the
    transformed one when a transform hook ran): the byte size of a character
    times the length of its JSON text, NaN when it has no JSON text, and 0
    when serializing it throws; the reported status is 200. *)
Theorem response_size_of_returned_payload ac r :
  opt_sendStats options = true →
  outcome (run ac) = Resolve r →
  ∃ record,
    stats_records (trace (run ac)) = [record] ∧
    record !! "restStatus" = Some (VNum 200) ∧
    record !! "responseSize" =
      Some (match JSON_stringify E (responseData r) with
            | Returns (Some s) =>
                VNum (ECMA_STRING_SIZE E * Z.of_nat (String.length s))
            | Returns None => VNaN
            | Throws _ => VNum 0
            end).
Proof.
  intros Hsink Hr.
  destruct (resolved_anatomy ac r Hr)
    as (p & resp & Hin & Hreq & Hstop & Hfo & ->).
  pose proof (finish_records ac p) as Hf. cbv zeta in Hf.
  rewrite Hreq, Hstop in Hf. destruct Hf as (data & _ & Hfo' & Hfr).
  rewrite Hfo in Hfo'. injection Hfo' as ->.
  rewrite Hfr. eexists. split; [reflexivity|].
  unfold stats_record, assign, object, responseSizeOf. rewrite Hsink.
  rewrite !list_to_map_cons. cbn [fst snd responseData]. split; by simplify_map_eq.
Qed.

(** X21. With a custom stats sink, the response size reported for a transport
    failure is computed from the data of the raw error's response (nothing,
    when the error has no response), and the reported status is the resolved
    status. *)
Theorem failure_size_of_error_response ac c rc error :
  opt_sendStats options = true →
  EvRequest c rc ∈ trace (run ac) →
  request E c rc = Throws error →
  ∃ record parsed,
    stats_records (trace (run ac)) = [record] ∧
    outcome (normalizeError E config (ac_args ac) error
               (lang_of E (ac_headers ac))) = Resolve parsed ∧
    record !! "restStatus" = Some (responseStatus parsed error) ∧
    record !! "responseSize" =
      Some (responseSizeOf E (get_path (get_path error "response") "data")).
Proof.
  intros Hsink Hin Hreq.
  destruct (stats_records_of_dispatch ac c rc Hin) as (p & -> & -> & _ & ->).
  pose proof (finish_records ac p) as Hf. cbv zeta in Hf.
  rewrite Hreq in Hf. destruct Hf as (parsed & Hn & ->).
  eexists _, parsed. split; [reflexivity|]. split; [done|].
  unfold stats_record, assign, object. rewrite Hsink.
  rewrite !list_to_map_cons. cbn [fst snd]. split; by simplify_map_eq.
Qed.
End Reporting.


(** ** The further properties on sample dispatches *)

Ltac not_listed :=
  cbn;
  let H := fresh in
  intros H;
  repeat (apply elem_of_cons in H as [H|H]; [discriminate|]);
  by apply elem_of_nil in H.

Ltac no_override := intros ? ? ? ? [=].







(** X7, witness: the key [missing] is not in the table, which has a default
    entry. *)
Lemma configured_selector_has_no_default_fallback_witness :
  table_get Scenario.table "endpoint" = Some (PlainEndpoint "http://backend:8080") ∧
  outcome (createRestAction (collab (ok 200) parse_status) Scenario.table
             (Scenario.make (EndpointKey "missing") false ProxyUnset
                None None None) "svc" "act"
             (Scenario.options ProxyUnset false)
             (Scenario.call Scenario.inbound)) =
    Reject (endpointNotFoundRejection "svc").
Proof.
  split; [reflexivity|].
  apply (configured_selector_has_no_default_fallback
           (collab (ok 200) parse_status) Scenario.table
           (Scenario.make (EndpointKey "missing") false ProxyUnset None None None)
           "svc" "act" (Scenario.options ProxyUnset false)
           (Scenario.call Scenario.inbound)).
  - reflexivity.
  - split; [discriminate | split; reflexivity].
Defined.

(** X23, witness: the key [constructor] is not in the table, but the table
    inherits a member of that name; the dispatch is not rejected, a request
    goes out to the text of the member followed by the action path. *)
Lemma inherited_endpoint_key_resolves_witness :
  (∃ table, Scenario.table = Some table ∧ table !! "constructor" = None) ∧
  ∃ c rc,
    EvRequest c rc ∈
      trace (createRestAction (collab (ok 200) parse_status) Scenario.table
               (Scenario.make (EndpointKey "constructor") false ProxyUnset
                  None None None) "svc" "act"
               (Scenario.options ProxyUnset false)
               (Scenario.call Scenario.inbound)) ∧
    rc_url rc = "function Object() { [native code] }/items".
Proof.
  split; [eexists; split; reflexivity|].
  destruct (inherited_endpoint_key_resolves (collab (ok 200) parse_status)
              Scenario.table
              (Scenario.make (EndpointKey "constructor") false ProxyUnset
                 None None None) "svc" "act"
              (Scenario.options ProxyUnset false)
              (Scenario.call Scenario.inbound) "constructor" _
              eq_refl eq_refl eq_refl eq_refl eq_refl)
    as (_ & c & rc & Hin & Hurl).
  exists c, rc. split; [exact Hin | exact Hurl].
Defined.

(** X8, witness: an extended entry under a named key. *)
Lemma request_url_is_base_plus_path_witness :
  ∃ c rc,
    EvRequest c rc ∈
      trace (createRestAction (collab (ok 200) parse_status) Scenario.table
               (Scenario.make (EndpointKey "slow") false ProxyUnset
                  None None None) "svc" "act"
               (Scenario.options ProxyUnset false)
               (Scenario.call Scenario.inbound)) ∧
    rc_url rc = "http://slow:9090/items".
Proof.
  destruct (request_issued (collab (ok 200) parse_status) Scenario.table
                     (Scenario.make (EndpointKey "slow") false ProxyUnset
                        None None None) "svc" "act"
                     (Scenario.options ProxyUnset false)
                     (Scenario.call Scenario.inbound) eq_refl eq_refl)
    as (c & rc & Hin).
  exists c, rc. split; [exact Hin|].
  destruct (request_url_is_base_plus_path (collab (ok 200) parse_status)
              Scenario.table
              (Scenario.make (EndpointKey "slow") false ProxyUnset None None None)
              "svc" "act" (Scenario.options ProxyUnset false)
              (Scenario.call Scenario.inbound) c rc Hin)
    as (e & params & He & Hurl & _).
  vm_compute in He. injection He as <-. exact Hurl.
Defined.



(** X11, witness: the endpoint's timeout and proxy setting go before the
    service-level ones. *)
Lemma per_call_transport_settings_witness :
  ∃ c rc cfg,
    EvRequest c rc ∈
      trace (createRestAction (collab (ok 200) parse_status) Scenario.table
               (Scenario.make (EndpointKey "slow") false ProxyUnset
                  None None None) "svc" "act"
               (Scenario.options ProxyUnset false)
               (Scenario.call Scenario.inbound)) ∧
    client_timeout c = VNum 30000 ∧ client_retries c = VNum 2 ∧
    client_config c = Some cfg ∧ cfg !! "proxy" = Some (VBool true).
Proof.
  destruct (request_issued (collab (ok 200) parse_status) Scenario.table
                     (Scenario.make (EndpointKey "slow") false ProxyUnset
                        None None None) "svc" "act"
                     (Scenario.options ProxyUnset false)
                     (Scenario.call Scenario.inbound) eq_refl eq_refl)
    as (c & rc & Hin).
  destruct (per_call_transport_settings (collab (ok 200) parse_status)
              Scenario.table
              (Scenario.make (EndpointKey "slow") false ProxyUnset None None None)
              "svc" "act" (Scenario.options ProxyUnset false)
              (Scenario.call Scenario.inbound) c rc Hin)
    as (e & cfg & He & Htime & Hretries & Hcfg & Hkeys).
  vm_compute in He. injection He as <-.
  exists c, rc, cfg. split; [exact Hin|]. split; [exact Htime|].
  split; [exact Hretries|]. split; [exact Hcfg|].
  rewrite Hkeys. reflexivity.
Defined.

(** X12, witness: a returning transport gives a resolved dispatch. *)
Lemma resolves_iff_transport_returns_witness :
  ∃ r, outcome (createRestAction (collab (ok 200) parse_status) Scenario.table
                  Scenario.basic "svc" "act" (Scenario.options ProxyUnset false)
                  (Scenario.call Scenario.inbound)) = Resolve r.
Proof.
  apply (resolves_iff_transport_returns (collab (ok 200) parse_status)
           Scenario.table Scenario.basic "svc" "act"
           (Scenario.options ProxyUnset false) (Scenario.call Scenario.inbound)).
  destruct (request_issued (collab (ok 200) parse_status) Scenario.table
                     Scenario.basic "svc" "act"
                     (Scenario.options ProxyUnset false)
                     (Scenario.call Scenario.inbound) eq_refl eq_refl)
    as (c & rc & Hin).
  split; [|reflexivity].
  exists c, rc. eexists. split; [exact Hin | reflexivity].
Defined.

(** X13, witness. *)
Lemma transformed_payload_returned_witness :
  ∃ dh,
    outcome (createRestAction (collab (ok 200) parse_status) Scenario.table
               (Scenario.make EndpointUnset false ProxyUnset None
                  (Some Scenario.upper) None) "svc" "act"
               (Scenario.options ProxyUnset false)
               (Scenario.call Scenario.inbound)) =
      Resolve {| responseData := VStr "PAYLOAD"; debugHeaders := dh |}.
Proof.
  destruct (request_issued (collab (ok 200) parse_status) Scenario.table
                     (Scenario.make EndpointUnset false ProxyUnset None
                        (Some Scenario.upper) None) "svc" "act"
                     (Scenario.options ProxyUnset false)
                     (Scenario.call Scenario.inbound) eq_refl eq_refl)
    as (c & rc & Hin).
  exact (transformed_payload_returned (collab (ok 200) parse_status)
           Scenario.table
           (Scenario.make EndpointUnset false ProxyUnset None
              (Some Scenario.upper) None)
           "svc" "act" (Scenario.options ProxyUnset false)
           (Scenario.call Scenario.inbound) c rc _ Scenario.upper
           (VStr "PAYLOAD") Hin eq_refl eq_refl eq_refl eq_refl).
Defined.

(** X14, witness. *)
Lemma body_preview_bounded_witness :
  ∃ dh,
    debug_of (outcome (createRestAction (collab (ok 200) parse_status)
                         Scenario.table Scenario.basic "svc" "act"
                         (Scenario.options ProxyUnset false)
                         (Scenario.call Scenario.inbound))) = Some dh ∧
    preview_ok (get dh "x-api-request-body").
Proof.
  destruct (request_issued (collab (ok 200) parse_status) Scenario.table
                     Scenario.basic "svc" "act"
                     (Scenario.options ProxyUnset false)
                     (Scenario.call Scenario.inbound) eq_refl eq_refl)
    as (c & rc & Hin).
  destruct (debug_of_issued
                   (collab (ok 200) parse_status) Scenario.table Scenario.basic
                   "svc" "act" (Scenario.options ProxyUnset false)
                   (Scenario.call Scenario.inbound) c rc Hin)
    as [dh Hdh].
  exists dh. split; [exact Hdh|].
  exact (body_preview_bounded (collab (ok 200) parse_status) Scenario.table
           Scenario.basic "svc" "act" (Scenario.options ProxyUnset false)
           (Scenario.call Scenario.inbound) c rc dh Hin Hdh).
Defined.

(** X15, witness: a 503 with response, turned into a 409 by the hook. *)
Lemma error_hook_result_wins_witness :
  ∃ dh,
    outcome (createRestAction (collab (fails unavailable) parse_status)
               Scenario.table
               (Scenario.make EndpointUnset false ProxyUnset None None
                  (Some Scenario.error_hook)) "svc" "act"
               (Scenario.options ProxyUnset false)
               (Scenario.call Scenario.inbound)) =
      Reject (failure (Some Scenario.hook_error) (VStr "req-7") dh).
Proof.
  destruct (request_issued (collab (fails unavailable) parse_status)
                     Scenario.table
                     (Scenario.make EndpointUnset false ProxyUnset None None
                        (Some Scenario.error_hook)) "svc" "act"
                     (Scenario.options ProxyUnset false)
                     (Scenario.call Scenario.inbound) eq_refl eq_refl)
    as (c & rc & Hin).
  exact (proj1 (error_hook_result_wins (collab (fails unavailable) parse_status)
           Scenario.table
           (Scenario.make EndpointUnset false ProxyUnset None None
              (Some Scenario.error_hook))
           "svc" "act" (Scenario.options ProxyUnset false)
           (Scenario.call Scenario.inbound) c rc unavailable Scenario.error_hook
           Scenario.hook_error Hin eq_refl eq_refl eq_refl eq_refl)).
Defined.

(** X16, witness: the hook throws, the fallback parser reads the 503. *)
Lemma error_hook_failure_falls_back_witness :
  ∃ v,
    outcome (createRestAction (collab (fails unavailable) parse_status)
               Scenario.table
               (Scenario.make EndpointUnset false ProxyUnset None None
                  (Some Scenario.failing_hook)) "svc" "act"
               (Scenario.options ProxyUnset false)
               (Scenario.call Scenario.inbound)) = Reject v ∧
    get_path (get v "error") "status" = VNum 503.
Proof.
  destruct (request_issued (collab (fails unavailable) parse_status)
                     Scenario.table
                     (Scenario.make EndpointUnset false ProxyUnset None None
                        (Some Scenario.failing_hook)) "svc" "act"
                     (Scenario.options ProxyUnset false)
                     (Scenario.call Scenario.inbound) eq_refl eq_refl)
    as (c & rc & Hin).
  destruct (error_hook_failure_falls_back
              (collab (fails unavailable) parse_status) Scenario.table
              (Scenario.make EndpointUnset false ProxyUnset None None
                 (Some Scenario.failing_hook))
              "svc" "act" (Scenario.options ProxyUnset false)
              (Scenario.call Scenario.inbound) c rc unavailable
              Scenario.failing_hook (VStr "hook failed") _
              Hin eq_refl eq_refl eq_refl eq_refl eq_refl) as [[dh Ho] _].
  eexists. split; [exact Ho | reflexivity].
Defined.

(** X17, witness: a timeout has no response; the configured hook is left
    out. *)
Lemma error_hook_skipped_without_response_witness :
  CTransformResponseError ∉
    calls (trace (createRestAction (collab (fails Scenario.timed_out) parse_status)
                    Scenario.table
                    (Scenario.make EndpointUnset false ProxyUnset None None
                       (Some Scenario.error_hook)) "svc" "act"
                    (Scenario.options ProxyUnset false)
                    (Scenario.call Scenario.inbound))).
Proof.
  destruct (request_issued
                     (collab (fails Scenario.timed_out) parse_status)
                     Scenario.table
                     (Scenario.make EndpointUnset false ProxyUnset None None
                        (Some Scenario.error_hook)) "svc" "act"
                     (Scenario.options ProxyUnset false)
                     (Scenario.call Scenario.inbound) eq_refl eq_refl)
    as (c & rc & Hin).
  exact (proj2 (error_hook_skipped_without_response
           (collab (fails Scenario.timed_out) parse_status) Scenario.table
           (Scenario.make EndpointUnset false ProxyUnset None None
              (Some Scenario.error_hook))
           "svc" "act" (Scenario.options ProxyUnset false)
           (Scenario.call Scenario.inbound) c rc Scenario.timed_out _
           Hin eq_refl eq_refl eq_refl)).
Defined.

(** X18, witness. *)
Lemma unparsed_error_rejection_witness :
  ∃ v,
    outcome (createRestAction (collab (fails Scenario.timed_out) parse_throws)
               Scenario.table Scenario.basic "svc" "act"
               (Scenario.options ProxyUnset false)
               (Scenario.call Scenario.inbound)) = Reject v ∧
    v !! "error" = Some (VObj {[ "requestId" := VStr "req-7" ]}).
Proof.
  destruct (request_issued
                     (collab (fails Scenario.timed_out) parse_throws)
                     Scenario.table Scenario.basic "svc" "act"
                     (Scenario.options ProxyUnset false)
                     (Scenario.call Scenario.inbound) eq_refl eq_refl)
    as (c & rc & Hin).
  exact (proj1 (unparsed_error_rejection
           (collab (fails Scenario.timed_out) parse_throws) Scenario.table
           Scenario.basic "svc" "act" (Scenario.options ProxyUnset false)
           (Scenario.call Scenario.inbound) c rc Scenario.timed_out
           (VStr "parser failed") Hin eq_refl (or_introl eq_refl) eq_refl)).
Defined.


(** X20, witness: the JSON text of the payload has nine characters, of two
    bytes each. *)
Lemma response_size_of_returned_payload_witness :
  ∃ record,
    stats_records (trace (createRestAction (collab (ok 200) parse_status)
                            Scenario.table Scenario.basic "svc" "act"
                            (Scenario.options ProxyUnset true)
                            (Scenario.call Scenario.inbound))) = [record] ∧
    record !! "responseSize" = Some (VNum 18).
Proof.
  destruct (request_issued (collab (ok 200) parse_status)
                          Scenario.table Scenario.basic "svc" "act"
                          (Scenario.options ProxyUnset true)
                          (Scenario.call Scenario.inbound) eq_refl eq_refl)
    as (c & rc & Hin).
  destruct (returns_resolves (collab (ok 200) parse_status)
                          Scenario.table Scenario.basic "svc" "act"
                          (Scenario.options ProxyUnset true)
                          (Scenario.call Scenario.inbound) c rc _ Hin eq_refl
                          eq_refl)
    as (data & dh & Hd & Hr).
  injection Hd as <-.
  destruct (response_size_of_returned_payload (collab (ok 200) parse_status)
              Scenario.table Scenario.basic "svc" "act"
              (Scenario.options ProxyUnset true)
              (Scenario.call Scenario.inbound) _ eq_refl Hr)
    as (record & Hrec & _ & Hsize).
  exists record. split; [exact Hrec | exact Hsize].
Defined.

(** X21, witness. *)
Lemma failure_size_of_error_response_witness :
  ∃ record,
    stats_records (trace (createRestAction
                            (collab (fails unavailable) parse_status)
                            Scenario.table Scenario.basic "svc" "act"
                            (Scenario.options ProxyUnset true)
                            (Scenario.call Scenario.inbound))) = [record] ∧
    record !! "restStatus" = Some (VNum 503).
Proof.
  destruct (request_issued (collab (fails unavailable) parse_status)
                     Scenario.table Scenario.basic "svc" "act"
                     (Scenario.options ProxyUnset true)
                     (Scenario.call Scenario.inbound) eq_refl eq_refl)
    as (c & rc & Hin).
  destruct (failure_size_of_error_response
              (collab (fails unavailable) parse_status) Scenario.table
              Scenario.basic "svc" "act" (Scenario.options ProxyUnset true)
              (Scenario.call Scenario.inbound) c rc unavailable eq_refl Hin
              eq_refl) as (record & parsed & Hrec & Hn & Hstatus & _).
  vm_compute in Hn. injection Hn as <-.
  exists record. split; [exact Hrec | exact Hstatus].
Defined.

Section Debugging.
Context (E : Collab).
Context (endpoints : option EndpointsConfig)
        (config : ApiServiceRestActionConfig)
        (serviceKey actionName : string)
        (options : GatewayApiOptions).

Abbreviation run := (action E endpoints config serviceKey actionName options).
Abbreviation pre := (prepare E endpoints config serviceKey actionName options).
Abbreviation fin := (finish E config serviceKey actionName options).

(** The debug headers a dispatch that got to the transport call hands to its
    caller are the ones built before the call. *)
Lemma debug_of_dispatch ac c rc dh :
  EvRequest c rc ∈ trace (run ac) →
  debug_of (outcome (run ac)) = Some dh →
  ∃ headers rb,
    dh = buildDebugHeaders E config (rc_url rc) ac (rc_params rc) headers rb.
Proof.
  intros Hin Hdh.
  destruct (request_anatomy E endpoints config serviceKey actionName options
              ac c rc Hin) as (p & Hp & -> & -> & _ & Ho).
  assert (dh = p_debugHeaders p) as ->.
  { rewrite Ho, (finish_debug E config serviceKey actionName options ac p)
      in Hdh. by injection Hdh. }
  destruct (prepare_resolved E endpoints config serviceKey actionName options
              ac p Hp) as (_ & e & h & params & rb & name & tags & _ & _ & H).
  cbv zeta in H. destruct H as (_ & _ & _ & _ & -> & _).
  by exists (headers_of params h), rb.
Qed.

End Debugging.

